(** * Region metadata extraction (extract_bbox_metadata.py)

    A shallow embedding of the bounding-box analysis of
    [extract_bbox_metadata.py]: clamping of a box to the page, the overlap
    test, the reconstruction of text lines from word records, the image
    filter, the table signal and the assembly of the final report.

    Numbers.  Coordinates and font sizes are Python floats.  The code only
    compares them, takes minima and maxima, subtracts and rounds to an
    integer; every finite float is a rational, so they are modelled as [Q]
    and Python's [==] on them as [Qeq].  Lengths, counts and positions are
    non-negative Python integers, modelled as [nat]; the page number, which
    may be negative, is a [Z]. *)

From Stdlib Require Import QArith Qround Qminmax Qabs Lqa ZArith Lia.
From Stdlib Require Import String Bool List Sorted Permutation.
Import ListNotations.

Local Open Scope Q_scope.

(** ** Python's comparisons, [min] and [max] on numbers *)

(** [a < b] as the boolean the interpreter computes. *)
Definition Qltb (a b : Q) : bool :=
  match a ?= b with Lt => true | _ => false end.

(** [min(a, b)]: the first argument is kept unless the second is strictly
    smaller. *)
Definition py_min (a b : Q) : Q := if Qltb b a then b else a.

(** [max(a, b)]: the first argument is kept unless the second is strictly
    greater. *)
Definition py_max (a b : Q) : Q := if Qltb a b then b else a.

(** ** Data model *)

(** A rectangle [(x0, top, x1, bottom)], a Python 4-tuple. *)
Definition BBox : Type := (Q * Q * Q * Q)%type.

(** [==] on two such tuples: componentwise numeric equality. *)
Definition bbox_eq (a b : BBox) : Prop :=
  let '(ax0, at_, ax1, ab) := a in
  let '(bx0, bt, bx1, bb) := b in
  ax0 == bx0 /\ at_ == bt /\ ax1 == bx1 /\ ab == bb.

(** A word as [extract_words(extra_attrs=["fontname", "size"])] returns it. *)
Module Word.
Record t : Type := mk
  { text : string; x0 : Q; top : Q; x1 : Q; bottom : Q;
    fontname : string; size : Q }.
End Word.

(** An entry of [page.images].  The four coordinates are read with
    [img["..."]]; the other fields with [img.get(...)], so they may be absent. *)
Module Img.
Record t : Type := mk
  { x0 : Q; top : Q; x1 : Q; bottom : Q;
    width : option Q; height : option Q;
    name : option string; srcsize : option (Q * Q) }.
End Img.

(** A vector primitive of the page (a line, a rectangle or a curve); the code
    only counts them. *)
Inductive Primitive : Type := primitive (extent : BBox).

(** What a cropped page offers: the words [extract_words] finds in it, and
    its [lines], [rects] and [curves]. *)
Module Cropped.
Record t : Type := mk
  { extract_words : list Word.t;
    lines : list Primitive; rects : list Primitive;
    curves : list Primitive }.
End Cropped.

(** A page of the parsing library.  [crop] is the library's; it may raise
    (here: [None]). *)
Module Page.
Record t : Type := mk
  { width : Q; height : Q;
    images : list Img.t;
    crop : BBox -> option Cropped.t }.
End Page.

(** An opened document: its [pages]. *)
Definition Pdf : Type := list Page.t.

(** ** clamp_bbox_to_page *)

Definition clamp_bbox_to_page (bbox : BBox) (page : Page.t) : BBox :=
  let '(x0, top, x1, bottom) := bbox in
  let x0 := py_max 0 (py_min x0 (Page.width page)) in
  let x1 := py_max 0 (py_min x1 (Page.width page)) in
  let top := py_max 0 (py_min top (Page.height page)) in
  let bottom := py_max 0 (py_min bottom (Page.height page)) in
  let '(x0, x1) := if Qltb x1 x0 then (x1, x0) else (x0, x1) in
  let '(top, bottom) := if Qltb bottom top then (bottom, top) else (top, bottom) in
  (x0, top, x1, bottom).

(** ** bbox_overlap *)

Definition bbox_overlap (a b : BBox) : bool :=
  let '(ax0, at_, ax1, ab) := a in
  let '(bx0, bt, bx1, bb) := b in
  let inter_w := py_max 0 (py_min ax1 bx1 - py_max ax0 bx0) in
  let inter_h := py_max 0 (py_min ab bb - py_max at_ bt) in
  Qltb 0 inter_w && Qltb 0 inter_h.

(** The clamp of one coordinate, [max(0, min(v, hi))]. *)
Definition clamp1 (v hi : Q) : Q := py_max 0 (py_min v hi).

(** ** Failure *)

(** A call that raises is [None]; [x <- e ;; k] runs [k] when [e] returned. *)
Notation "x <- e ;; k" :=
  (match e with Some x => k | None => None end)
  (at level 61, e at next level, right associativity, only parsing).

Fixpoint mapM {A B : Type} (f : A -> option B) (l : list A) : option (list B) :=
  match l with
  | [] => Some []
  | a :: l' => b <- f a ;; bs <- mapM f l' ;; Some (b :: bs)
  end.

(** [l[i]] on a Python list: negative positions count from the end, any
    other position out of range raises. *)
Definition py_getitem {A : Type} (l : list A) (i : Z) : option A :=
  let n := Z.of_nat (length l) in
  if (0 <=? i)%Z then nth_error l (Z.to_nat i)
  else if (- n <=? i)%Z then nth_error l (Z.to_nat (n + i))
  else None.

(** ** Line reconstruction (extract_bbox_text_metadata) *)

(** [round(0)] on a float column rounds to the nearest integer, a half to
    the even neighbour.  The result is an integer-valued float, kept as a
    [Z]. *)
Definition round_half_even (q : Q) : Z :=
  let f := Qfloor q in
  match Qcompare (q - inject_Z f) (1 # 2) with
  | Lt => f
  | Gt => (f + 1)%Z
  | Eq => if Z.even f then f else (f + 1)%Z
  end.

(** A row of [wdf]: the word's columns and the added column [line_id]. *)
Module Row.
Record t : Type := mk { word : Word.t; line_id : Z }.
End Row.

(** [wdf = pd.DataFrame(words); wdf["line_id"] = wdf["top"].round(0)] *)
Definition wdf (words : list Word.t) : list Row.t :=
  map (fun w => Row.mk w (round_half_even (Word.top w))) words.

(** [sort_values]: rows that compare equal keep their order. *)
Section Sorting.
Context {A : Type} (le : A -> A -> bool).

Fixpoint insert_sorted (a : A) (l : list A) : list A :=
  match l with
  | [] => [a]
  | b :: l' => if le a b then a :: l else b :: insert_sorted a l'
  end.

Fixpoint sort_values (l : list A) : list A :=
  match l with
  | [] => []
  | a :: l' => insert_sorted a (sort_values l')
  end.
End Sorting.

(** The order of [sort_values(["line_id", "x0"])]. *)
Definition line_id_x0_le (r1 r2 : Row.t) : bool :=
  (Row.line_id r1 <? Row.line_id r2)%Z
  || ((Row.line_id r1 =? Row.line_id r2)%Z
      && negb (Qltb (Word.x0 (Row.word r2)) (Word.x0 (Row.word r1)))).

(** [groupby("line_id")]: one group per key, keys ascending, the rows of a
    group in the order of the frame. *)
Definition group_keys (rows : list Row.t) : list Z :=
  sort_values Z.leb (nodup Z.eq_dec (map Row.line_id rows)).

Definition groupby_line_id (rows : list Row.t) : list (Z * list Row.t) :=
  map (fun k => (k, filter (fun r => (Row.line_id r =? k)%Z) rows))
      (group_keys rows).

(** [Counter(x)]: a dict in insertion order; an element already present has
    its count raised where it stands, a new one is appended with count 1. *)
Section Counting.
Context {A : Type} (eqb : A -> A -> bool).

Fixpoint Counter_incr (x : A) (c : list (A * nat)) : list (A * nat) :=
  match c with
  | [] => [(x, 1%nat)]
  | (k, n) :: c' =>
      if eqb k x then (k, S n) :: c' else (k, n) :: Counter_incr x c'
  end.

Definition Counter (xs : list A) : list (A * nat) :=
  fold_left (fun c x => Counter_incr x c) xs [].

(** [most_common(1)] is [heapq.nlargest(1, items, key=count)], that is
    [max(items, key=count)]: an item replaces the best so far only when
    its count is strictly greater. *)
Definition most_common_1 (c : list (A * nat)) : list (A * nat) :=
  match c with
  | [] => []
  | p :: c' =>
      [fold_left (fun best q => if (snd best <? snd q)%nat then q else best)
                 c' p]
  end.

(** [Counter(x).most_common(1)[0][0]] *)
Definition most_common_value (xs : list A) : option A :=
  p <- hd_error (most_common_1 (Counter xs)) ;; Some (fst p).

(** How many elements of [l] are equal to [v]. *)
Definition occurrences (v : A) (l : list A) : nat :=
  length (filter (eqb v) l).

(** [v] is the most frequent value of [l], and the first-encountered one
    among those tied for the highest frequency: [v] stands in [l] at a
    position before which every element is strictly less frequent. *)
Definition first_seen_mode (l : list A) (v : A) : Prop :=
  exists l1 l2,
    l = l1 ++ v :: l2
    /\ (forall w, (occurrences w l <= occurrences v l)%nat)
    /\ (forall w, In w l1 -> (occurrences w l < occurrences v l)%nat).

(** What [Counter(xs)] holds: every stored count is the number of occurrences
    of its key; every element has a key equal to it; and a key stands in
    [xs] unequal to the keys before it, at a position before which every
    element is equal to one of those earlier keys. *)
Definition counts_of (c : list (A * nat)) (xs : list A) : Prop :=
  (forall k n, In (k, n) c -> n = occurrences k xs)
  /\ (forall x, In x xs -> exists k, In k (map fst c) /\ eqb k x = true)
  /\ (forall d1 v d2,
         map fst c = d1 ++ v :: d2 ->
         (forall k, In k d1 -> eqb k v = false)
         /\ exists l1 l2,
              xs = l1 ++ v :: l2
              /\ forall w, In w l1 -> exists k, In k d1 /\ eqb k w = true).
End Counting.

(** A row of [lines_df], in the order of the [agg] dict. *)
Module Line.
Record t : Type := mk
  { text : string; fontname : string; size : Q;
    x0 : Q; top : Q; x1 : Q; bottom : Q }.
End Line.

(** The ["min"] and ["max"] of a column; there is none of an empty column. *)
Definition col_min (l : list Q) : option Q :=
  match l with
  | [] => None
  | x :: l' => Some (fold_left py_min l' x)
  end.

Definition col_max (l : list Q) : option Q :=
  match l with
  | [] => None
  | x :: l' => Some (fold_left py_max l' x)
  end.

(** The [agg] of one group. *)
Definition agg (g : list Row.t) : option Line.t :=
  let col {B : Type} (f : Word.t -> B) := map (fun r => f (Row.word r)) g in
  fontname <- most_common_value String.eqb (col Word.fontname) ;;
  size <- most_common_value Qeq_bool (col Word.size) ;;
  x0 <- col_min (col Word.x0) ;;
  top <- col_min (col Word.top) ;;
  x1 <- col_max (col Word.x1) ;;
  bottom <- col_max (col Word.bottom) ;;
  Some (Line.mk (String.concat " " (col Word.text))
                fontname size x0 top x1 bottom).

(** The order of [sort_values("top")].  The lines of distinct groups have
    distinct tops (each is a top of its own group, and rounds to that group's
    key; see [lines_tops_distinct]), so the sorted order does not depend on
    how ties would fall. *)
Definition top_le (l1 l2 : Line.t) : bool :=
  negb (Qltb (Line.top l2) (Line.top l1)).

(** The groups of the frame: [wdf.sort_values(["line_id", "x0"])
    .groupby("line_id")]. *)
Definition line_groups (words : list Word.t) : list (Z * list Row.t) :=
  groupby_line_id (sort_values line_id_x0_le (wdf words)).

(** [lines_df.to_dict(orient="records")] *)
Definition lines_df (words : list Word.t) : option (list Line.t) :=
  ls <- mapM (fun kg => agg (snd kg)) (line_groups words) ;;
  Some (sort_values top_le ls).

(** The dict the text extraction returns; ["message"] is present only when no
    word was found. *)
Module TextPart.
Record t : Type := mk
  { page_number : Z; bbox : BBox; lines : list Line.t;
    message : option string }.
End TextPart.

(** [pdfplumber.open]: the document behind a path, when there is one. *)
Definition Opener : Type := string -> option Pdf.

Definition extract_bbox_text_metadata
    (pdfplumber_open : Opener) (pdf_path : string) (page_number : Z)
    (bbox : BBox) : option TextPart.t :=
  pdf <- pdfplumber_open pdf_path ;;
  page <- py_getitem pdf page_number ;;
  let bbox := clamp_bbox_to_page bbox page in
  cropped <- Page.crop page bbox ;;
  let words := Cropped.extract_words cropped in
  match words with
  | [] =>
      Some (TextPart.mk page_number bbox []
                        (Some "No text found inside bbox"%string))
  | _ :: _ =>
      lines <- lines_df words ;;
      Some (TextPart.mk page_number bbox lines None)
  end.

(** ** Images (extract_bbox_image_metadata) *)

Module ImageRecord.
Record t : Type := mk
  { image_id : nat; image_bbox : BBox;
    width : option Q; height : option Q;
    name : option string; srcsize : option (Q * Q) }.
End ImageRecord.

Module ImagePart.
Record t : Type := mk
  { page_number : Z; bbox : BBox; image_count : nat;
    images : list ImageRecord.t }.
End ImagePart.

(** The loop [for i, img in enumerate(page.images)], from position [i] on,
    appending to [results]. *)
Fixpoint images_loop (bbox : BBox) (i : nat) (imgs : list Img.t)
    (results : list ImageRecord.t) : list ImageRecord.t :=
  match imgs with
  | [] => results
  | img :: imgs' =>
      let img_bbox := (Img.x0 img, Img.top img, Img.x1 img, Img.bottom img) in
      let results :=
        if bbox_overlap bbox img_bbox
        then results ++ [ImageRecord.mk i img_bbox (Img.width img)
                           (Img.height img) (Img.name img) (Img.srcsize img)]
        else results in
      images_loop bbox (S i) imgs' results
  end.

Definition extract_bbox_image_metadata
    (pdfplumber_open : Opener) (pdf_path : string) (page_number : Z)
    (bbox : BBox) : option ImagePart.t :=
  pdf <- pdfplumber_open pdf_path ;;
  page <- py_getitem pdf page_number ;;
  let bbox := clamp_bbox_to_page bbox page in
  let results := images_loop bbox 0%nat (Page.images page) [] in
  Some (ImagePart.mk page_number bbox (length results) results).

(** ** Table signal (extract_bbox_table_signal) *)

Module TableSignal.
Record t : Type := mk
  { page_number : Z; bbox : BBox;
    lines_count : nat; rects_count : nat; curves_count : nat;
    likely_table : bool }.
End TableSignal.

(** The dict built from a cropped page. *)
Definition table_signal_of (page_number : Z) (bbox : BBox)
    (cropped : Cropped.t) : TableSignal.t :=
  TableSignal.mk page_number bbox
    (length (Cropped.lines cropped))
    (length (Cropped.rects cropped))
    (length (Cropped.curves cropped))
    (15 <? length (Cropped.lines cropped) + length (Cropped.rects cropped))%nat.

Definition extract_bbox_table_signal
    (pdfplumber_open : Opener) (pdf_path : string) (page_number : Z)
    (bbox : BBox) : option TableSignal.t :=
  pdf <- pdfplumber_open pdf_path ;;
  page <- py_getitem pdf page_number ;;
  let bbox := clamp_bbox_to_page bbox page in
  cropped <- Page.crop page bbox ;;
  Some (table_signal_of page_number bbox cropped).

(** ** The report (extract_bbox_metadata) *)

Module RegionReport.
Record t : Type := mk
  { pdf_path : string; page_number : Z; bbox : BBox;
    text : list Line.t; text_line_count : nat;
    images : list ImageRecord.t; image_count : nat;
    table_signal : TableSignal.t }.
End RegionReport.

(** Each [.get(key, default)] reads a key the part always has. *)
Definition extract_bbox_metadata
    (pdfplumber_open : Opener) (pdf_path : string) (page_number : Z)
    (bbox : BBox) : option RegionReport.t :=
  text_part <- extract_bbox_text_metadata pdfplumber_open pdf_path page_number bbox ;;
  image_part <- extract_bbox_image_metadata pdfplumber_open pdf_path page_number bbox ;;
  table_part <- extract_bbox_table_signal pdfplumber_open pdf_path page_number bbox ;;
  Some (RegionReport.mk pdf_path page_number
          (TextPart.bbox text_part)
          (TextPart.lines text_part)
          (length (TextPart.lines text_part))
          (ImagePart.images image_part)
          (ImagePart.image_count image_part)
          table_part).

(** ** Notions the properties are stated with *)

(** A rectangle lies within a [W] by [H] page, corners in order. *)
Definition within_page (b : BBox) (W H : Q) : Prop :=
  let '(x0, top, x1, bottom) := b in
  (0 <= x0 /\ x0 <= x1 /\ x1 <= W) /\ (0 <= top /\ top <= bottom /\ bottom <= H).

(** Width and height of the intersection of two rectangles (negative when the
    rectangles are apart on that axis). *)
Definition inter_width (a b : BBox) : Q :=
  let '(ax0, _, ax1, _) := a in
  let '(bx0, _, bx1, _) := b in
  Qmin ax1 bx1 - Qmax ax0 bx0.

Definition inter_height (a b : BBox) : Q :=
  let '(_, at_, _, ab) := a in
  let '(_, bt, _, bb) := b in
  Qmin ab bb - Qmax at_ bt.

(** [k] is an integer nearest to [q]. *)
Definition nearest_integer (q : Q) (k : Z) : Prop :=
  Qabs (q - inject_Z k) <= 1 # 2.

(** Two words are placed in the same line: some group holds both. *)
Definition same_line (words : list Word.t) (w1 w2 : Word.t) : Prop :=
  exists k g, In (k, g) (line_groups words)
              /\ In w1 (map Row.word g) /\ In w2 (map Row.word g).

(** A page of the given size with nothing on it. *)
Definition blank_page (W H : Q) : Page.t :=
  Page.mk W H [] (fun _ => Some (Cropped.mk [] [] [] [])).

(** The words of the line grouping scenario; what the scenario leaves open
    ([x1], [bottom], [fontname], [size]) is a parameter. *)
Definition scenario_word (text : string) (top x0 : Q)
    (rest : Q * Q * string * Q) : Word.t :=
  let '(x1, bottom, fontname, size) := rest in
  Word.mk text x0 top x1 bottom fontname size.

Definition scenario_words (r1 r2 r3 : Q * Q * string * Q) : list Word.t :=
  [ scenario_word "Hello" 100.2 10 r1;
    scenario_word "World" 100.6 60 r2;
    scenario_word "Next" 130.0 10 r3 ].

(** A completion of the scenario's words, and a one-page document that holds
    them together with the two images of the image filter scenario. *)
Definition scenario_sample : list Word.t :=
  scenario_words (50, 112.2, "Helvetica", 12)%string
                 (100, 112.6, "Helvetica", 12)%string
                 (40, 142, "Helvetica-Bold", 14)%string.

Definition sample_page : Page.t :=
  Page.mk 612 792
    [ Img.mk 0 0 5 5 (Some 5) (Some 5) (Some "Im0"%string) None;
      Img.mk 50 50 60 60 None None None (Some (10, 10)) ]
    (fun _ => Some (Cropped.mk scenario_sample [] [] [])).

Definition sample_open : Opener := fun _ => Some [sample_page].

Definition blank_open : Opener := fun _ => Some [blank_page 612 792].

(** A group of four words on one line whose font names and sizes are tied
    two against two. *)
Definition tie_group : list Row.t :=
  wdf [ Word.mk "a" 10 50 20 60 "Times" 12;
        Word.mk "b" 30 50 40 60 "Arial" 10;
        Word.mk "c" 50 50 60 60 "Arial" 12;
        Word.mk "d" 70 50 80 60 "Times" 10 ]%string.

(** The record the image loop builds for the image at position [i]. *)
Definition image_record (i : nat) (img : Img.t) : ImageRecord.t :=
  ImageRecord.mk i (Img.x0 img, Img.top img, Img.x1 img, Img.bottom img)
                 (Img.width img) (Img.height img) (Img.name img)
                 (Img.srcsize img).

(** The box an image entry occupies. *)
Definition img_bbox (img : Img.t) : BBox :=
  (Img.x0 img, Img.top img, Img.x1 img, Img.bottom img).

(** What a report holds besides the page number it was asked for. *)
Definition report_content (r : RegionReport.t) :=
  (RegionReport.pdf_path r, RegionReport.bbox r,
   RegionReport.text r, RegionReport.text_line_count r,
   RegionReport.images r, RegionReport.image_count r,
   (TableSignal.bbox (RegionReport.table_signal r),
    TableSignal.lines_count (RegionReport.table_signal r),
    TableSignal.rects_count (RegionReport.table_signal r),
    TableSignal.curves_count (RegionReport.table_signal r),
    TableSignal.likely_table (RegionReport.table_signal r))).

(** Rows from left to right, lines from top to bottom. *)
Definition left_to_right (r1 r2 : Row.t) : Prop :=
  Word.x0 (Row.word r1) <= Word.x0 (Row.word r2).

Definition top_to_bottom (l1 l2 : Line.t) : Prop :=
  Line.top l1 <= Line.top l2.

(** * Properties *)

(** ** Comparisons *)

Lemma Qltb_spec (a b : Q) : reflect (a < b) (Qltb a b).
Proof.
  unfold Qltb. destruct (a ?= b) eqn:E.
  - constructor. rewrite Qlt_alt, E. discriminate.
  - constructor. now apply Qlt_alt.
  - constructor. rewrite Qlt_alt, E. discriminate.
Qed.

Lemma Qltb_true (a b : Q) : Qltb a b = true <-> a < b.
Proof. destruct (Qltb_spec a b); split; intros; easy. Qed.

Lemma Qltb_false (a b : Q) : Qltb a b = false <-> b <= a.
Proof.
  destruct (Qltb_spec a b); split; intros; try easy; lra.
Qed.

(** Case analysis on every comparison the goal still tests, innermost
    first, so that each hypothesis is a plain inequality. *)
Ltac no_cmp_in t :=
  lazymatch t with
  | context [Qltb] => fail
  | _ => idtac
  end.

Ltac split_cmp :=
  repeat match goal with
         | |- context [Qltb ?a ?b] =>
             no_cmp_in a; no_cmp_in b;
             let H := fresh "Hc" in
             destruct (Qltb_spec a b) as [H | H]; cbv iota
         end.

Lemma py_min_le_l (a b : Q) : py_min a b <= a.
Proof. unfold py_min. split_cmp; lra. Qed.

Lemma py_min_le_r (a b : Q) : py_min a b <= b.
Proof. unfold py_min. split_cmp; lra. Qed.

Lemma py_max_ge_l (a b : Q) : a <= py_max a b.
Proof. unfold py_max. split_cmp; lra. Qed.

Lemma py_max_ge_r (a b : Q) : b <= py_max a b.
Proof. unfold py_max. split_cmp; lra. Qed.

(** Python's [min] and [max] agree in value with the order's. *)
Lemma py_min_Qmin (a b : Q) : py_min a b == Qmin a b.
Proof.
  unfold py_min. split_cmp.
  - rewrite Q.min_r; lra.
  - rewrite Q.min_l; lra.
Qed.

Lemma py_max_Qmax (a b : Q) : py_max a b == Qmax a b.
Proof.
  unfold py_max. split_cmp.
  - rewrite Q.max_r; lra.
  - rewrite Q.max_l; lra.
Qed.

(** ** The clamp of one coordinate *)

Lemma clamp1_range (v hi : Q) : 0 <= hi -> 0 <= clamp1 v hi <= hi.
Proof. unfold clamp1, py_max, py_min. intros. split_cmp; lra. Qed.

Lemma clamp1_idem (v hi : Q) : clamp1 (clamp1 v hi) hi = clamp1 v hi.
Proof.
  unfold clamp1, py_max, py_min.
  split_cmp; try reflexivity; lra.
Qed.

Lemma clamp1_id (v hi : Q) : 0 <= v <= hi -> clamp1 v hi == v.
Proof. unfold clamp1, py_max, py_min. intros. split_cmp; lra. Qed.

Lemma clamp_bbox_to_page_unfold (x0 top x1 bottom : Q) (page : Page.t) :
  clamp_bbox_to_page (x0, top, x1, bottom) page =
  let cx0 := clamp1 x0 (Page.width page) in
  let cx1 := clamp1 x1 (Page.width page) in
  let ct := clamp1 top (Page.height page) in
  let cb := clamp1 bottom (Page.height page) in
  (if Qltb cx1 cx0 then cx1 else cx0,
   if Qltb cb ct then cb else ct,
   if Qltb cx1 cx0 then cx0 else cx1,
   if Qltb cb ct then ct else cb).
Proof.
  unfold clamp_bbox_to_page, clamp1. cbv zeta.
  destruct (Qltb _ _), (Qltb _ _); reflexivity.
Qed.

(** ** clamp_bbox_to_page *)

(** C5.  Whatever the four numbers of the rectangle, and for every page whose
    width and height are not negative, normalization returns a rectangle
    [(x0, top, x1, bottom)] with [0 <= x0 <= x1 <= W] and
    [0 <= top <= bottom <= H]; it is a total function, so it never fails. *)
Theorem clamp_bbox_to_page_within (b : BBox) (page : Page.t) :
  0 <= Page.width page -> 0 <= Page.height page ->
  exists r, clamp_bbox_to_page b page = r
            /\ within_page r (Page.width page) (Page.height page).
Proof.
  intros HW HH. eexists. split; [reflexivity|].
  destruct b as [[[x0 top] x1] bottom].
  rewrite clamp_bbox_to_page_unfold. cbv zeta. unfold within_page.
  pose proof (clamp1_range x0 _ HW). pose proof (clamp1_range x1 _ HW).
  pose proof (clamp1_range top _ HH). pose proof (clamp1_range bottom _ HH).
  split_cmp; lra.
Qed.

Lemma clamp_bbox_to_page_within_witness :
  exists r, clamp_bbox_to_page (700, -5, 20, 900) (blank_page 612 792) = r
            /\ within_page r 612 792.
Proof.
  apply (clamp_bbox_to_page_within (700, -5, 20, 900) (blank_page 612 792));
    simpl; lra.
Defined.

(** C6.  Normalization is idempotent: for all page sizes [W, H > 0],
    normalizing a normalized rectangle gives that same rectangle. *)
Theorem clamp_bbox_to_page_idempotent (b : BBox) (page : Page.t) :
  0 < Page.width page -> 0 < Page.height page ->
  clamp_bbox_to_page (clamp_bbox_to_page b page) page = clamp_bbox_to_page b page.
Proof.
  intros _ _. destruct b as [[[x0 top] x1] bottom].
  rewrite (clamp_bbox_to_page_unfold x0). cbv zeta.
  rewrite clamp_bbox_to_page_unfold. cbv zeta.
  set (W := Page.width page). set (H := Page.height page).
  pose proof (clamp1_idem x0 W) as E0. pose proof (clamp1_idem x1 W) as E1.
  pose proof (clamp1_idem top H) as Et. pose proof (clamp1_idem bottom H) as Eb.
  destruct (Qltb_spec (clamp1 x1 W) (clamp1 x0 W)) as [Hx | Hx];
    destruct (Qltb_spec (clamp1 bottom H) (clamp1 top H)) as [Hy | Hy];
    rewrite ?E0, ?E1, ?Et, ?Eb;
    split_cmp; try reflexivity; lra.
Qed.

Lemma clamp_bbox_to_page_idempotent_witness :
  clamp_bbox_to_page (clamp_bbox_to_page (700, 900, 20, -5) (blank_page 612 792))
                     (blank_page 612 792)
  = clamp_bbox_to_page (700, 900, 20, -5) (blank_page 612 792).
Proof.
  apply (clamp_bbox_to_page_idempotent (700, 900, 20, -5) (blank_page 612 792));
    simpl; lra.
Defined.

(** C10.  A rectangle already within the page, corners in order, is returned
    as it is: every coordinate of the result equals the one given, so nothing
    was clamped and nothing swapped. *)
Theorem clamp_bbox_to_page_valid_id (b : BBox) (page : Page.t) :
  within_page b (Page.width page) (Page.height page) ->
  bbox_eq (clamp_bbox_to_page b page) b.
Proof.
  destruct b as [[[x0 top] x1] bottom]. unfold within_page.
  intros [(Hx0 & Hx & Hx1) (Ht & Hy & Hb)].
  rewrite clamp_bbox_to_page_unfold. cbv zeta. unfold bbox_eq.
  pose proof (clamp1_id x0 (Page.width page)).
  pose proof (clamp1_id x1 (Page.width page)).
  pose proof (clamp1_id top (Page.height page)).
  pose proof (clamp1_id bottom (Page.height page)).
  split_cmp; lra.
Qed.

Lemma clamp_bbox_to_page_valid_id_witness :
  bbox_eq (clamp_bbox_to_page (0, 10, 300, 10) (blank_page 612 792))
          (0, 10, 300, 10).
Proof.
  apply (clamp_bbox_to_page_valid_id (0, 10, 300, 10) (blank_page 612 792)).
  simpl. lra.
Defined.

(** The swap is what orders the corners of an inverted rectangle. *)
Example clamp_bbox_to_page_inverted :
  clamp_bbox_to_page (700, 900, 20, -5) (blank_page 612 792) = (20, 0, 612, 792).
Proof. reflexivity. Qed.

(** ** bbox_overlap *)

Lemma py_max_0_pos (d : Q) : 0 < py_max 0 d <-> 0 < d.
Proof. unfold py_max. split_cmp; lra. Qed.

Lemma py_min_sub_py_max (a b c d : Q) :
  py_min a b - py_max c d == Qmin a b - Qmax c d.
Proof. now rewrite py_min_Qmin, py_max_Qmax. Qed.

(** C7.  The overlap test holds exactly when the intersection of the two
    rectangles has strictly positive width and strictly positive height; two
    rectangles that share only an edge, or only a corner, do not overlap. *)
Theorem bbox_overlap_positive_area :
  (forall a b : BBox,
      bbox_overlap a b = true <-> 0 < inter_width a b /\ 0 < inter_height a b)
  /\ bbox_overlap (0, 0, 10, 10) (10, 0, 20, 10) = false
  /\ bbox_overlap (0, 0, 10, 10) (10, 10, 20, 20) = false.
Proof.
  split; [|split; reflexivity].
  intros [[[ax0 at_] ax1] ab] [[[bx0 bt] bx1] bb].
  unfold bbox_overlap, inter_width, inter_height. cbv zeta.
  rewrite andb_true_iff, !Qltb_true, !py_max_0_pos, !py_min_sub_py_max.
  reflexivity.
Qed.

(** ** extract_bbox_table_signal *)

(** C4.  [likely_table] is true exactly when the number of lines plus the
    number of rectangles exceeds 15, whatever the number of curves: 10 lines
    and 6 rectangles give true, 10 lines and 5 rectangles give false. *)
Theorem likely_table_threshold :
  (forall pn bbox cropped,
      let s := table_signal_of pn bbox cropped in
      TableSignal.lines_count s = length (Cropped.lines cropped)
      /\ TableSignal.rects_count s = length (Cropped.rects cropped)
      /\ TableSignal.curves_count s = length (Cropped.curves cropped)
      /\ (TableSignal.likely_table s = true
          <-> (TableSignal.lines_count s + TableSignal.rects_count s > 15)%nat))
  /\ (forall pn bbox ws ls rs cs cs',
         TableSignal.likely_table (table_signal_of pn bbox (Cropped.mk ws ls rs cs))
         = TableSignal.likely_table (table_signal_of pn bbox (Cropped.mk ws ls rs cs')))
  /\ (forall opener path pn bbox,
         match extract_bbox_table_signal opener path pn bbox with
         | Some s =>
             TableSignal.likely_table s = true
             <-> (TableSignal.lines_count s + TableSignal.rects_count s > 15)%nat
         | None => True
         end)
  /\ (forall pn bbox p cs,
         TableSignal.likely_table
           (table_signal_of pn bbox (Cropped.mk [] (repeat p 10) (repeat p 6) cs))
         = true
         /\ TableSignal.likely_table
              (table_signal_of pn bbox (Cropped.mk [] (repeat p 10) (repeat p 5) cs))
            = false).
Proof.
  assert (T : forall pn bbox cropped,
             let s := table_signal_of pn bbox cropped in
             TableSignal.likely_table s = true
             <-> (TableSignal.lines_count s + TableSignal.rects_count s > 15)%nat).
  { intros. subst s. simpl. rewrite Nat.ltb_lt. lia. }
  split; [|split; [|split]].
  - intros. subst s. repeat split; try apply T; apply T.
  - reflexivity.
  - intros. unfold extract_bbox_table_signal.
    destruct (opener path) as [pdf|]; [|exact I].
    destruct (py_getitem pdf pn) as [page|]; [|exact I].
    destruct (Page.crop page _) as [cropped|]; [|exact I].
    apply T.
  - intros. split; reflexivity.
Qed.

(** ** extract_bbox_metadata *)

(** The loop only appends to [results]. *)
Lemma images_loop_app (bbox : BBox) (imgs : list Img.t) :
  forall i results,
    images_loop bbox i imgs results = results ++ images_loop bbox i imgs [].
Proof.
  induction imgs as [|img imgs IH]; intros i results; simpl.
  - now rewrite app_nil_r.
  - destruct (bbox_overlap bbox _).
    + rewrite IH. rewrite (IH _ [_]). now rewrite app_assoc.
    + apply IH.
Qed.

Lemma extract_bbox_image_metadata_count opener path pn bbox part :
  extract_bbox_image_metadata opener path pn bbox = Some part ->
  ImagePart.image_count part = length (ImagePart.images part).
Proof.
  unfold extract_bbox_image_metadata.
  destruct (opener path) as [pdf|]; [|discriminate].
  destruct (py_getitem pdf pn) as [page|]; [|discriminate].
  intros [= <-]. reflexivity.
Qed.

(** C8.  In every report the assembler returns, [text_line_count] is the
    length of [text] and [image_count] is the length of [images]. *)
Theorem report_counts_are_lengths opener path pn bbox (report : RegionReport.t) :
  extract_bbox_metadata opener path pn bbox = Some report ->
  RegionReport.text_line_count report = length (RegionReport.text report)
  /\ RegionReport.image_count report = length (RegionReport.images report).
Proof.
  unfold extract_bbox_metadata.
  destruct (extract_bbox_text_metadata _ _ _ _) as [text_part|]; [|discriminate].
  destruct (extract_bbox_image_metadata _ _ _ _) as [image_part|] eqn:Ei;
    [|discriminate].
  destruct (extract_bbox_table_signal _ _ _ _) as [table_part|]; [|discriminate].
  intros [= <-]. simpl. split; [reflexivity|].
  eapply extract_bbox_image_metadata_count, Ei.
Qed.

Lemma report_counts_are_lengths_witness :
  exists report,
    extract_bbox_metadata sample_open "doc.pdf" 0 (0, 0, 10, 10) = Some report
    /\ RegionReport.text_line_count report = 3%nat
    /\ RegionReport.image_count report = 1%nat
    /\ RegionReport.text_line_count report = length (RegionReport.text report)
    /\ RegionReport.image_count report = length (RegionReport.images report).
Proof.
  eexists. split; [vm_compute; reflexivity|].
  split; [reflexivity|]. split; [reflexivity|].
  apply (report_counts_are_lengths sample_open "doc.pdf" 0 (0, 0, 10, 10)).
  vm_compute. reflexivity.
Defined.

(** C9.  When the cropped region has no word, the request does not fail: the
    report is returned, its [text] is empty and its [text_line_count] is 0. *)
Theorem empty_region_is_a_report opener path pn bbox pdf page cropped :
  opener path = Some pdf ->
  py_getitem pdf pn = Some page ->
  Page.crop page (clamp_bbox_to_page bbox page) = Some cropped ->
  Cropped.extract_words cropped = [] ->
  exists report,
    extract_bbox_metadata opener path pn bbox = Some report
    /\ RegionReport.text report = []
    /\ RegionReport.text_line_count report = 0%nat.
Proof.
  intros Ho Hp Hc Hw.
  unfold extract_bbox_metadata, extract_bbox_text_metadata,
    extract_bbox_image_metadata, extract_bbox_table_signal.
  rewrite Ho, Hp, Hc, Hw. eexists. repeat split.
Qed.

Lemma empty_region_is_a_report_witness :
  exists report,
    extract_bbox_metadata blank_open "blank.pdf" (-1) (100, 100, 200, 200)
    = Some report
    /\ RegionReport.text report = []
    /\ RegionReport.text_line_count report = 0%nat.
Proof.
  apply (empty_region_is_a_report blank_open "blank.pdf" (-1)
           (100, 100, 200, 200) [blank_page 612 792] (blank_page 612 792)
           (Cropped.mk [] [] [] []));
    reflexivity.
Defined.

(** The text extraction itself answers an empty region with no line and the
    message. *)
Lemma empty_region_text_part opener path pn bbox pdf page cropped :
  opener path = Some pdf ->
  py_getitem pdf pn = Some page ->
  Page.crop page (clamp_bbox_to_page bbox page) = Some cropped ->
  Cropped.extract_words cropped = [] ->
  extract_bbox_text_metadata opener path pn bbox
  = Some (TextPart.mk pn (clamp_bbox_to_page bbox page) []
            (Some "No text found inside bbox"%string)).
Proof.
  intros Ho Hp Hc Hw. unfold extract_bbox_text_metadata.
  now rewrite Ho, Hp, Hc, Hw.
Qed.

(** ** The line grouping scenario *)

(** C1, as the code has it.  100.2 rounds to 100 but 100.6 rounds to 101, so
    the three words of the scenario fall into three groups: line
    reconstruction returns three lines, with the texts "Hello", "World" and
    "Next", whatever the fields the scenario leaves open. *)
Theorem scenario_three_lines (r1 r2 r3 : Q * Q * string * Q) :
  map round_half_even [100.2; 100.6; 130.0] = [100; 101; 130]%Z
  /\ option_map (map Line.text) (lines_df (scenario_words r1 r2 r3))
     = Some ["Hello"; "World"; "Next"]%string.
Proof.
  destruct r1 as [[[a1 b1] f1] s1], r2 as [[[a2 b2] f2] s2],
           r3 as [[[a3 b3] f3] s3].
  split; vm_compute; reflexivity.
Qed.

(** The scenario as the specification words it does not hold: on the sample
    completion of the three words the result is not a two-line list headed
    by "Hello World". *)
Lemma scenario_not_two_lines :
  ~ (exists l1 l2,
        lines_df scenario_sample = Some [l1; l2]
        /\ Line.text l1 = "Hello World"%string
        /\ Line.text l2 = "Next"%string).
Proof.
  intros (l1 & l2 & E & _). vm_compute in E. discriminate E.
Qed.

(** ** The line-grouping key *)

Lemma round_half_even_nearest (q : Q) : nearest_integer q (round_half_even q).
Proof.
  unfold nearest_integer, round_half_even.
  pose proof (Qfloor_le q) as Hlo. pose proof (Qlt_floor q) as Hhi.
  rewrite inject_Z_plus in Hhi. change (inject_Z 1) with 1 in Hhi.
  apply Qabs_Qle_condition. cbv zeta.
  destruct (Qcompare_spec (q - inject_Z (Qfloor q)) (1 # 2)) as [E | E | E];
    [destruct (Z.even (Qfloor q))| |];
    rewrite ?inject_Z_plus; change (inject_Z 1) with 1;
    generalize dependent (inject_Z (Qfloor q)); intros; split; lra.
Qed.

(** A number strictly within half a unit of an integer rounds to it. *)
Lemma round_half_even_band (q : Q) (k : Z) :
  inject_Z k - (1 # 2) < q < inject_Z k + (1 # 2) -> round_half_even q = k.
Proof.
  intros [Hlo Hhi].
  pose proof (round_half_even_nearest q) as Hn. unfold nearest_integer in Hn.
  apply Qabs_Qle_condition in Hn.
  set (r := round_half_even q) in *.
  assert (Hd : -1 < inject_Z r - inject_Z k < 1) by lra.
  unfold Qminus in Hd. rewrite <- inject_Z_opp, <- inject_Z_plus in Hd.
  destruct Hd as [Hd1 Hd2].
  change (-1) with (inject_Z (-1)) in Hd1. change 1 with (inject_Z 1) in Hd2.
  rewrite <- Zlt_Qlt in Hd1, Hd2. lia.
Qed.

Lemma wdf_In (words : list Word.t) (r : Row.t) :
  In r (wdf words)
  <-> In (Row.word r) words
      /\ Row.line_id r = round_half_even (Word.top (Row.word r)).
Proof.
  unfold wdf. rewrite in_map_iff. split.
  - intros (w & <- & Hw). now split.
  - intros [Hw E]. exists (Row.word r). split; [|assumption].
    destruct r as [w k]. simpl in *. now subst k.
Qed.

Section SortingFacts.
Context {A : Type} (le : A -> A -> bool).

Lemma insert_sorted_In (a x : A) (l : list A) :
  In x (insert_sorted le a l) <-> a = x \/ In x l.
Proof.
  induction l as [|b l IH]; simpl.
  - tauto.
  - destruct (le a b); simpl; [tauto|]. rewrite IH. tauto.
Qed.

Lemma sort_values_In (x : A) (l : list A) :
  In x (sort_values le l) <-> In x l.
Proof.
  induction l as [|a l IH]; simpl; [tauto|].
  rewrite insert_sorted_In, IH. tauto.
Qed.

Lemma insert_sorted_length (a : A) (l : list A) :
  length (insert_sorted le a l) = S (length l).
Proof.
  induction l as [|b l IH]; simpl; [reflexivity|].
  destruct (le a b); simpl; [reflexivity|]. now rewrite IH.
Qed.

Lemma sort_values_length (l : list A) :
  length (sort_values le l) = length l.
Proof.
  induction l as [|a l IH]; simpl; [reflexivity|].
  now rewrite insert_sorted_length, IH.
Qed.
End SortingFacts.

Lemma group_keys_In (rows : list Row.t) (k : Z) :
  In k (group_keys rows) <-> exists r, In r rows /\ Row.line_id r = k.
Proof.
  unfold group_keys. rewrite sort_values_In, nodup_In, in_map_iff.
  split; intros (r & H1 & H2); exists r; tauto.
Qed.

(** A group is made of the rows of the frame that carry its key, and there
    is at least one. *)
Lemma groupby_line_id_In (rows : list Row.t) (k : Z) (g : list Row.t) :
  In (k, g) (groupby_line_id rows)
  <-> (exists r, In r rows /\ Row.line_id r = k)
      /\ g = filter (fun r => (Row.line_id r =? k)%Z) rows.
Proof.
  unfold groupby_line_id. rewrite in_map_iff. split.
  - intros (k' & [= -> <-] & Hk). split; [|reflexivity].
    now apply group_keys_In.
  - intros [Hk ->]. exists k. split; [reflexivity|]. now apply group_keys_In.
Qed.

Lemma line_groups_In (words : list Word.t) (k : Z) (g : list Row.t) (r : Row.t) :
  In (k, g) (line_groups words) ->
  (In r g <-> In r (wdf words) /\ Row.line_id r = k).
Proof.
  unfold line_groups. rewrite groupby_line_id_In. intros [_ ->].
  rewrite filter_In, sort_values_In, Z.eqb_eq. tauto.
Qed.

Lemma line_groups_own (words : list Word.t) (w : Word.t) :
  In w words ->
  exists g, In (round_half_even (Word.top w), g) (line_groups words)
            /\ In (Row.mk w (round_half_even (Word.top w))) g.
Proof.
  intros Hw.
  set (r := Row.mk w (round_half_even (Word.top w))).
  assert (Hr : In r (wdf words)) by (apply wdf_In; now split).
  assert (Hg : In (Row.line_id r,
                   filter (fun r' => (Row.line_id r' =? Row.line_id r)%Z)
                          (sort_values line_id_x0_le (wdf words)))
                  (line_groups words)).
  { apply groupby_line_id_In. split; [|reflexivity].
    exists r. split; [now apply sort_values_In | reflexivity]. }
  eexists. split; [exact Hg|].
  apply (line_groups_In _ _ _ r Hg). now split.
Qed.

(** C2.  The key a word is given is its [top] rounded to the nearest
    integer; two words of the input end up in the same line exactly when
    their tops round to the same integer. *)
Theorem line_id_is_rounded_top (words : list Word.t) (w1 w2 : Word.t) :
  In w1 words -> In w2 words ->
  (forall r, In r (wdf words) ->
             Row.line_id r = round_half_even (Word.top (Row.word r))
             /\ nearest_integer (Word.top (Row.word r)) (Row.line_id r))
  /\ (round_half_even (Word.top w1) = round_half_even (Word.top w2)
      -> same_line words w1 w2)
  /\ (round_half_even (Word.top w1) <> round_half_even (Word.top w2)
      -> ~ same_line words w1 w2).
Proof.
  intros H1 H2. split; [|split].
  - intros r Hr. apply wdf_In in Hr as [_ ->]. split; [reflexivity|].
    apply round_half_even_nearest.
  - intros E.
    destruct (line_groups_own words w1 H1) as (g & Hg & Hr1).
    exists (round_half_even (Word.top w1)), g. split; [exact Hg|].
    split; apply in_map_iff.
    + eexists. split; [|exact Hr1]. reflexivity.
    + exists (Row.mk w2 (round_half_even (Word.top w2))).
      split; [reflexivity|].
      apply (line_groups_In _ _ _ _ Hg). split; [|now symmetry].
      apply wdf_In. now split.
  - intros N (k & g & Hg & Hi1 & Hi2). apply N.
    apply in_map_iff in Hi1 as (r1 & <- & Hr1).
    apply in_map_iff in Hi2 as (r2 & <- & Hr2).
    apply (line_groups_In _ _ _ _ Hg) in Hr1 as [Hw1 Hk1].
    apply (line_groups_In _ _ _ _ Hg) in Hr2 as [Hw2 Hk2].
    apply wdf_In in Hw1 as [_ E1]. apply wdf_In in Hw2 as [_ E2].
    congruence.
Qed.

Lemma line_id_is_rounded_top_witness :
  (forall r, In r (wdf scenario_sample) ->
             Row.line_id r = round_half_even (Word.top (Row.word r))
             /\ nearest_integer (Word.top (Row.word r)) (Row.line_id r))
  /\ (round_half_even (100.2) = round_half_even (100.6)
      -> same_line scenario_sample (nth 0 scenario_sample (Word.mk "" 0 0 0 0 "" 0))
                   (nth 1 scenario_sample (Word.mk "" 0 0 0 0 "" 0)))
  /\ (round_half_even (100.2) <> round_half_even (100.6)
      -> ~ same_line scenario_sample (nth 0 scenario_sample (Word.mk "" 0 0 0 0 "" 0))
                     (nth 1 scenario_sample (Word.mk "" 0 0 0 0 "" 0))).
Proof.
  apply (line_id_is_rounded_top scenario_sample
           (nth 0 scenario_sample (Word.mk "" 0 0 0 0 "" 0))
           (nth 1 scenario_sample (Word.mk "" 0 0 0 0 "" 0)));
    simpl; tauto.
Defined.

(** ** Counter and most_common *)

Section CountingFacts.
Context {A : Type} (eqb : A -> A -> bool).
Hypothesis eqb_refl : forall x, eqb x x = true.
Hypothesis eqb_sym : forall x y, eqb x y = eqb y x.
Hypothesis eqb_trans :
  forall x y z, eqb x y = true -> eqb y z = true -> eqb x z = true.

Lemma occurrences_snoc (k x : A) (xs : list A) :
  occurrences eqb k (xs ++ [x])
  = (occurrences eqb k xs + if eqb k x then 1 else 0)%nat.
Proof.
  unfold occurrences. rewrite filter_app, length_app. simpl.
  now destruct (eqb k x).
Qed.

Lemma occurrences_none (k : A) (xs : list A) :
  (forall y, In y xs -> eqb k y = false) -> occurrences eqb k xs = 0%nat.
Proof.
  unfold occurrences. induction xs as [|y xs IH]; intros H; simpl.
  - reflexivity.
  - rewrite (H y (or_introl eq_refl)). apply IH.
    intros z Hz. apply H. now right.
Qed.

Lemma occurrences_pos (k : A) (xs : list A) :
  (0 < occurrences eqb k xs)%nat -> exists y, In y xs /\ eqb k y = true.
Proof.
  unfold occurrences. induction xs as [|y xs IH]; simpl; [lia|].
  destruct (eqb k y) eqn:E.
  - intros _. exists y. split; [now left | exact E].
  - intros H. destruct (IH H) as (z & Hz & Ez). exists z. split; [now right | exact Ez].
Qed.

Lemma occurrences_eqb (a b : A) (xs : list A) :
  eqb a b = true -> occurrences eqb a xs = occurrences eqb b xs.
Proof.
  intros E. unfold occurrences. induction xs as [|y xs IH]; simpl; [reflexivity|].
  assert (Ey : eqb a y = eqb b y).
  { destruct (eqb a y) eqn:Ea, (eqb b y) eqn:Eb; try reflexivity.
    - rewrite <- Eb. symmetry. apply eqb_trans with a; [|exact Ea].
      rewrite eqb_sym. exact E.
    - rewrite <- Ea. apply eqb_trans with b; assumption. }
  rewrite Ey. destruct (eqb b y); simpl; now rewrite IH.
Qed.

(** What one more element does to the counter. *)
Lemma Counter_incr_cases (x : A) (c : list (A * nat)) :
  (exists c1 k n c2,
      c = c1 ++ (k, n) :: c2
      /\ eqb k x = true
      /\ (forall k', In k' (map fst c1) -> eqb k' x = false)
      /\ Counter_incr eqb x c = c1 ++ (k, S n) :: c2)
  \/ ((forall k, In k (map fst c) -> eqb k x = false)
      /\ Counter_incr eqb x c = c ++ [(x, 1%nat)]).
Proof.
  induction c as [|[k n] c IH]; simpl.
  - right. split; [intros k []|reflexivity].
  - destruct (eqb k x) eqn:E.
    + left. exists [], k, n, c.
      split; [reflexivity|]. split; [exact E|]. split; [|reflexivity].
      intros k' [].
    + destruct IH as [(c1 & k1 & n1 & c2 & -> & E1 & Hc1 & ->) | [Hall ->]].
      * left. exists ((k, n) :: c1), k1, n1, c2.
        split; [reflexivity|]. split; [exact E1|]. split; [|reflexivity].
        simpl. intros k' [<- | Hk']; [exact E | now apply Hc1].
      * right. split; [|reflexivity].
        intros k' [<- | Hk']; [exact E | now apply Hall].
Qed.

Lemma counts_of_nil : counts_of eqb [] [].
Proof.
  split; [|split].
  - intros k n [].
  - intros x [].
  - intros d1 v d2 H. simpl in H. now destruct d1.
Qed.

Lemma counts_of_snoc (c : list (A * nat)) (xs : list A) (x : A) :
  counts_of eqb c xs -> counts_of eqb (Counter_incr eqb x c) (xs ++ [x]).
Proof.
  intros (P1 & P2 & P3).
  destruct (Counter_incr_cases x c)
    as [(c1 & k & n & c2 & Ec & Ek & Hc1 & ->) | [Hall ->]].
  - (* the count of an existing key is raised *)
    assert (Ekeys : map fst (c1 ++ (k, S n) :: c2) = map fst c).
    { rewrite Ec, !map_app. reflexivity. }
    split; [|split].
    + intros k' n' Hin. rewrite occurrences_snoc.
      apply in_app_or in Hin as [Hin | [[= <- <-] | Hin]].
      * rewrite (Hc1 k') by (apply in_map_iff; now exists (k', n')).
        rewrite Nat.add_0_r. apply P1. rewrite Ec. apply in_or_app. now left.
      * rewrite Ek, Nat.add_1_r. f_equal. apply P1. rewrite Ec.
        apply in_or_app. right. now left.
      * assert (Ek' : eqb k' x = false).
        { destruct (in_split _ _ Hin) as (a & b & ->).
          destruct (P3 (map fst c1 ++ k :: map fst a) k' (map fst b)) as [Hd _].
          { rewrite Ec, !map_app. simpl. rewrite map_app. simpl.
            now rewrite <- app_assoc. }
          assert (Hk : In k (map fst c1 ++ k :: map fst a))
            by (apply in_or_app; right; now left).
          apply Hd in Hk. clear Hd. rename Hk into Hd.
          destruct (eqb k' x) eqn:E'; [|reflexivity].
          rewrite <- Hd. symmetry. apply eqb_trans with x; [exact Ek|].
          rewrite eqb_sym. exact E'. }
        rewrite Ek', Nat.add_0_r. apply P1. rewrite Ec.
        apply in_or_app. right. now right.
    + intros y Hy. rewrite Ekeys. apply in_app_or in Hy as [Hy | [<- | []]].
      * now apply P2.
      * exists k. split; [|exact Ek]. rewrite Ec, map_app.
        apply in_or_app. right. now left.
    + intros d1 v d2 Hd. rewrite Ekeys in Hd.
      destruct (P3 d1 v d2 Hd) as (Hne & l1 & l2 & -> & Hl1).
      split; [exact Hne|]. exists l1, (l2 ++ [x]). split; [|exact Hl1].
      now rewrite <- app_assoc.
  - (* a new key is appended *)
    split; [|split].
    + intros k' n' Hin. rewrite occurrences_snoc.
      apply in_app_or in Hin as [Hin | [[= <- <-] | []]].
      * rewrite (Hall k') by (apply in_map_iff; now exists (k', n')).
        rewrite Nat.add_0_r. now apply P1.
      * rewrite eqb_refl, occurrences_none; [reflexivity|].
        intros y Hy. destruct (P2 y Hy) as (k & Hk & Eky).
        destruct (eqb x y) eqn:E; [|reflexivity].
        rewrite <- (Hall k Hk). symmetry. apply eqb_trans with y; [exact Eky|].
        rewrite eqb_sym. exact E.
    + intros y Hy. rewrite map_app. apply in_app_or in Hy as [Hy | [<- | []]].
      * destruct (P2 y Hy) as (k & Hk & Eky). exists k. split; [|exact Eky].
        apply in_or_app. now left.
      * exists x. split; [|apply eqb_refl]. apply in_or_app. right. now left.
    + intros d1 v d2 Hd. rewrite map_app in Hd. simpl in Hd.
      induction d2 as [|y d2' _] using rev_ind.
      * apply (app_inj_tail (map fst c) d1 x v) in Hd as [<- <-].
        split; [exact Hall|]. exists xs, []. split; [reflexivity|exact P2].
      * change (d1 ++ v :: d2' ++ [y]) with (d1 ++ (v :: d2') ++ [y]) in Hd.
        rewrite app_assoc in Hd.
        apply app_inj_tail in Hd as [Hd _].
        destruct (P3 d1 v d2' Hd) as (Hne & l1 & l2 & -> & Hl1).
        split; [exact Hne|]. exists l1, (l2 ++ [x]). split; [|exact Hl1].
        now rewrite <- app_assoc.
Qed.

Lemma Counter_counts_of (xs : list A) : counts_of eqb (Counter eqb xs) xs.
Proof.
  induction xs as [|x xs IH] using rev_ind.
  - apply counts_of_nil.
  - unfold Counter. rewrite fold_left_app. simpl. now apply counts_of_snoc.
Qed.

(** [max(items, key=count)] returns the first item of greatest count. *)
Lemma most_common_1_first_max (c' : list (A * nat)) :
  forall pre p suf,
    (forall q, In q pre -> (snd q < snd p)%nat) ->
    (forall q, In q suf -> (snd q <= snd p)%nat) ->
    exists c1 c2,
      let best :=
        fold_left (fun best q => if (snd best <? snd q)%nat then q else best)
                  c' p in
      pre ++ p :: suf ++ c' = c1 ++ best :: c2
      /\ (forall q, In q c1 -> (snd q < snd best)%nat)
      /\ (forall q, In q c2 -> (snd q <= snd best)%nat).
Proof.
  induction c' as [|q c' IH]; intros pre p suf Hpre Hsuf; simpl.
  - exists pre, suf. rewrite app_nil_r. now split.
  - destruct (Nat.ltb_spec (snd p) (snd q)) as [Hlt | Hge].
    + destruct (IH (pre ++ p :: suf) q []) as (c1 & c2 & E & H1 & H2).
      * intros r Hr. apply in_app_or in Hr as [Hr | [<- | Hr]].
        -- specialize (Hpre r Hr). lia.
        -- exact Hlt.
        -- specialize (Hsuf r Hr). lia.
      * intros r [].
      * exists c1, c2. split; [|now split].
        rewrite <- E. simpl. now rewrite <- app_assoc.
    + destruct (IH pre p (suf ++ [q])) as (c1 & c2 & E & H1 & H2).
      * exact Hpre.
      * intros r Hr. apply in_app_or in Hr as [Hr | [<- | []]];
          [now apply Hsuf | exact Hge].
      * exists c1, c2. split; [|now split].
        rewrite <- E. now rewrite <- app_assoc.
Qed.

(** [Counter(xs).most_common(1)[0][0]] on a non-empty [xs]: there is such a
    value, and it is the first-seen most frequent one. *)
Lemma most_common_value_first_seen (xs : list A) :
  xs <> [] ->
  exists v, most_common_value eqb xs = Some v /\ first_seen_mode eqb xs v.
Proof.
  intros Hne. destruct (Counter_counts_of xs) as (P1 & P2 & P3).
  unfold most_common_value, most_common_1.
  destruct (Counter eqb xs) as [|p c'] eqn:Ec.
  - destruct xs as [|x xs]; [contradiction|].
    destruct (P2 x (or_introl eq_refl)) as (k & [] & _).
  - destruct (most_common_1_first_max c' [] p [])
      as (c1 & c2 & E & H1 & H2); [intros q []..|].
    cbv zeta in E, H1, H2. rewrite !app_nil_l in E.
    set (best := fold_left _ c' p) in *.
    destruct best as [v n]. simpl in H1, H2.
    exists v. split; [reflexivity|].
    assert (Hn : n = occurrences eqb v xs).
    { apply P1. rewrite E. apply in_or_app. right. now left. }
    destruct (P3 (map fst c1) v (map fst c2)) as (_ & l1 & l2 & Exs & Hl1).
    { rewrite E, map_app. reflexivity. }
    assert (Hkey : forall k w, eqb k w = true ->
                     forall m, In (k, m) (p :: c') ->
                               m = occurrences eqb w xs).
    { intros k w Ekw m Hin. rewrite <- (occurrences_eqb k w xs Ekw).
      now apply P1. }
    exists l1, l2. split; [exact Exs|]. split.
    + intros w.
      destruct (Nat.eq_dec (occurrences eqb w xs) 0) as [-> | Hpos]; [lia|].
      destruct (occurrences_pos w xs) as (y & Hy & Ewy); [lia|].
      destruct (P2 y Hy) as (k & Hk & Eky).
      apply in_map_iff in Hk as ([k0 m] & Ek0 & Hin). simpl in Ek0. subst k0.
      assert (Ekw : eqb k w = true).
      { apply eqb_trans with y; [exact Eky|]. rewrite eqb_sym. exact Ewy. }
      rewrite <- (Hkey k w Ekw m Hin), <- Hn.
      rewrite E in Hin. apply in_app_or in Hin as [Hin | [[= _ <-] | Hin]].
      * specialize (H1 _ Hin). simpl in H1. lia.
      * lia.
      * specialize (H2 _ Hin). simpl in H2. lia.
    + intros w Hw. destruct (Hl1 w Hw) as (k & Hk & Ekw).
      apply in_map_iff in Hk as ([k0 m] & Ek0 & Hin). simpl in Ek0. subst k0.
      rewrite <- (Hkey k w Ekw m), <- Hn.
      * specialize (H1 _ Hin). simpl in H1. exact H1.
      * rewrite E. apply in_or_app. now left.
Qed.
End CountingFacts.

(** ** The aggregation of a group *)

Lemma string_most_common_value (xs : list string) :
  xs <> [] ->
  exists v, most_common_value String.eqb xs = Some v
            /\ first_seen_mode String.eqb xs v.
Proof.
  apply most_common_value_first_seen.
  - apply String.eqb_refl.
  - apply String.eqb_sym.
  - intros x y z Exy Eyz. apply String.eqb_eq in Exy, Eyz.
    apply String.eqb_eq. congruence.
Qed.

Lemma number_most_common_value (xs : list Q) :
  xs <> [] ->
  exists v, most_common_value Qeq_bool xs = Some v
            /\ first_seen_mode Qeq_bool xs v.
Proof.
  apply most_common_value_first_seen.
  - apply Qeq_bool_refl.
  - apply Qeq_bool_comm.
  - apply Qeq_bool_trans.
Qed.

Lemma map_not_nil {A B : Type} (f : A -> B) (l : list A) :
  l <> [] -> map f l <> [].
Proof. destruct l; [contradiction | discriminate]. Qed.

(** C3.  For every non-empty group, the aggregated line exists, and its
    [fontname] and its [size] are each the most frequent value among the
    group's words, the first-encountered one when several values share the
    highest frequency. *)
Theorem agg_first_seen_most_common (g : list Row.t) :
  g <> [] ->
  exists line,
    agg g = Some line
    /\ first_seen_mode String.eqb
         (map (fun r => Word.fontname (Row.word r)) g) (Line.fontname line)
    /\ first_seen_mode Qeq_bool
         (map (fun r => Word.size (Row.word r)) g) (Line.size line).
Proof.
  intros Hne. unfold agg. cbv zeta.
  destruct (string_most_common_value
              (map (fun r => Word.fontname (Row.word r)) g))
    as (fontname & -> & Hf); [now apply map_not_nil|].
  destruct (number_most_common_value
              (map (fun r => Word.size (Row.word r)) g))
    as (size & -> & Hs); [now apply map_not_nil|].
  destruct g as [|r g]; [contradiction|]. simpl.
  eexists. split; [reflexivity|]. simpl. now split.
Qed.

Lemma agg_first_seen_most_common_witness :
  exists line,
    agg tie_group = Some line
    /\ first_seen_mode String.eqb
         (map (fun r => Word.fontname (Row.word r)) tie_group)
         (Line.fontname line)
    /\ first_seen_mode Qeq_bool
         (map (fun r => Word.size (Row.word r)) tie_group) (Line.size line).
Proof.
  apply (agg_first_seen_most_common tie_group). discriminate.
Defined.

(** On the tied group the first-seen values win: "Times" over "Arial" and 12
    over 10. *)
Example agg_tie_group :
  agg tie_group
  = Some (Line.mk "a b c d" "Times" 12 10 50 80 60).
Proof. vm_compute. reflexivity. Qed.

(** ** Line reconstruction returns *)

Lemma mapM_all {A B : Type} (f : A -> option B) (l : list A) :
  (forall a, In a l -> exists b, f a = Some b) ->
  exists bs, mapM f l = Some bs
             /\ length bs = length l
             /\ forall b, In b bs <-> exists a, In a l /\ f a = Some b.
Proof.
  induction l as [|a l IH]; intros Hall; simpl.
  - exists []. split; [reflexivity|]. split; [reflexivity|].
    intros b. split; [intros [] | intros (a & [] & _)].
  - destruct (Hall a (or_introl eq_refl)) as (b & Eb).
    destruct IH as (bs & -> & Hlen & Hin).
    { intros a' Ha'. apply Hall. now right. }
    rewrite Eb. exists (b :: bs). split; [reflexivity|].
    split; [simpl; now rewrite Hlen|].
    intros b'. simpl. rewrite Hin. split.
    + intros [<- | (a' & Ha' & Ea')].
      * exists a. split; [now left | exact Eb].
      * exists a'. split; [now right | exact Ea'].
    + intros (a' & [<- | Ha'] & Ea').
      * left. congruence.
      * right. now exists a'.
Qed.

Lemma agg_is_some (g : list Row.t) :
  g <> [] -> exists line, agg g = Some line.
Proof.
  intros Hne. unfold agg. cbv zeta.
  destruct (string_most_common_value
              (map (fun r => Word.fontname (Row.word r)) g))
    as (fontname & -> & _); [now apply map_not_nil|].
  destruct (number_most_common_value
              (map (fun r => Word.size (Row.word r)) g))
    as (size & -> & _); [now apply map_not_nil|].
  destruct g as [|r g]; [contradiction|]. simpl. now eexists.
Qed.

Lemma line_groups_not_nil (words : list Word.t) (k : Z) (g : list Row.t) :
  In (k, g) (line_groups words) -> g <> [].
Proof.
  intros Hg. pose proof Hg as Hg'.
  unfold line_groups in Hg'. apply groupby_line_id_In in Hg' as [(r & Hr & Hk) _].
  assert (Hin : In r g).
  { apply (line_groups_In _ _ _ r Hg). split; [|exact Hk].
    now apply sort_values_In in Hr. }
  intros ->. exact Hin.
Qed.

(** Line reconstruction always returns: one line per group, each the
    aggregation of its group. *)
Lemma lines_df_returns (words : list Word.t) :
  exists ls,
    lines_df words = Some ls
    /\ length ls = length (line_groups words)
    /\ forall line, In line ls
                    <-> exists k g, In (k, g) (line_groups words)
                                    /\ agg g = Some line.
Proof.
  unfold lines_df.
  destruct (mapM_all (fun kg => agg (snd kg)) (line_groups words))
    as (ls & -> & Hlen & Hin).
  { intros [k g] Hg. apply agg_is_some. eapply line_groups_not_nil, Hg. }
  exists (sort_values top_le ls). split; [reflexivity|].
  split; [now rewrite sort_values_length|].
  intros line. rewrite sort_values_In, Hin. split.
  - intros ([k g] & Hg & E). now exists k, g.
  - intros (k & g & Hg & E). now exists (k, g).
Qed.

(** With a document, a page and a crop, the text extraction returns. *)
Lemma extract_bbox_text_metadata_returns opener path pn bbox pdf page cropped :
  opener path = Some pdf ->
  py_getitem pdf pn = Some page ->
  Page.crop page (clamp_bbox_to_page bbox page) = Some cropped ->
  exists part, extract_bbox_text_metadata opener path pn bbox = Some part.
Proof.
  intros Ho Hp Hc. unfold extract_bbox_text_metadata. rewrite Ho, Hp, Hc.
  destruct (Cropped.extract_words cropped) as [|w ws]; [now eexists|].
  destruct (lines_df_returns (w :: ws)) as (ls & -> & _). now eexists.
Qed.

(** ** The image filter scenario *)

(** Of the two images of the sample page only the first meets the box
    [(0, 0, 10, 10)]; it keeps its position 0 in the page's list. *)
Example image_filter_scenario :
  option_map (fun part => map ImageRecord.image_id (ImagePart.images part))
             (extract_bbox_image_metadata sample_open "doc.pdf" 0 (0, 0, 10, 10))
  = Some [0%nat].
Proof. reflexivity. Qed.

(** A box further down the page meets only the second image, whose
    [image_id] is 1 although it is the first of the result. *)
Example image_filter_keeps_position :
  option_map (fun part => map ImageRecord.image_id (ImagePart.images part))
             (extract_bbox_image_metadata sample_open "doc.pdf" 0 (40, 40, 70, 70))
  = Some [1%nat].
Proof. reflexivity. Qed.

(** ** The final order of the lines *)

Lemma fold_left_py_min_In (l : list Q) (x : Q) :
  In (fold_left py_min l x) (x :: l).
Proof.
  revert x. induction l as [|y l IH]; intros x; simpl; [now left|].
  destruct (IH (py_min x y)) as [E | Hin]; [|now right; right].
  rewrite <- E. unfold py_min. destruct (Qltb y x); [right; now left | now left].
Qed.

Lemma col_min_In (l : list Q) (m : Q) : col_min l = Some m -> In m l.
Proof.
  destruct l as [|x l]; [discriminate|]. intros [= <-].
  apply fold_left_py_min_In.
Qed.

(** The [top] of a line is the [top] of one of the words of its group. *)
Lemma agg_top_In (g : list Row.t) (line : Line.t) :
  agg g = Some line ->
  exists r, In r g /\ Word.top (Row.word r) = Line.top line.
Proof.
  unfold agg. cbv zeta.
  destruct (most_common_value String.eqb _); [|discriminate].
  destruct (most_common_value Qeq_bool _); [|discriminate].
  destruct (col_min (map (fun r => Word.x0 (Row.word r)) g)); [|discriminate].
  destruct (col_min (map (fun r => Word.top (Row.word r)) g)) as [t|] eqn:Et;
    [|discriminate].
  destruct (col_max _); [|discriminate].
  destruct (col_max _); [|discriminate].
  intros [= <-]. simpl.
  apply col_min_In, in_map_iff in Et as (r & E & Hr). now exists r.
Qed.

Lemma round_half_even_Qeq (p q : Q) :
  p == q -> round_half_even p = round_half_even q.
Proof.
  intros E. unfold round_half_even.
  rewrite (Qfloor_comp p q E).
  assert (Ec : Qcompare (p - inject_Z (Qfloor q)) (1 # 2)
               = Qcompare (q - inject_Z (Qfloor q)) (1 # 2))
    by now rewrite E.
  now rewrite Ec.
Qed.

(** Two lines with numerically equal tops come from the same group: sorting
    the lines by [top] never has a tie to break. *)
Lemma lines_tops_distinct (words : list Word.t) k1 g1 k2 g2 line1 line2 :
  In (k1, g1) (line_groups words) -> In (k2, g2) (line_groups words) ->
  agg g1 = Some line1 -> agg g2 = Some line2 ->
  Line.top line1 == Line.top line2 ->
  k1 = k2.
Proof.
  intros H1 H2 A1 A2 E.
  apply agg_top_In in A1 as (r1 & Hr1 & T1), A2 as (r2 & Hr2 & T2).
  apply (line_groups_In _ _ _ _ H1) in Hr1 as [W1 <-].
  apply (line_groups_In _ _ _ _ H2) in Hr2 as [W2 <-].
  apply wdf_In in W1 as [_ ->], W2 as [_ ->].
  apply round_half_even_Qeq. now rewrite T1, T2.
Qed.

(** * Further properties of the code *)

(** ** bbox_overlap, in plain inequalities *)

(** The test holds exactly when, on each axis, every start lies strictly
    before every end. *)
Lemma bbox_overlap_iff (ax0 at_ ax1 ab bx0 bt bx1 bb : Q) :
  bbox_overlap (ax0, at_, ax1, ab) (bx0, bt, bx1, bb) = true
  <-> (ax0 < ax1 /\ ax0 < bx1 /\ bx0 < ax1 /\ bx0 < bx1)
      /\ (at_ < ab /\ at_ < bb /\ bt < ab /\ bt < bb).
Proof.
  unfold bbox_overlap. cbv zeta.
  rewrite andb_true_iff, !Qltb_true, !py_max_0_pos.
  unfold py_min, py_max. split_cmp; lra.
Qed.

(** X1.  The overlap test is symmetric in its two rectangles. *)
Theorem bbox_overlap_sym (a b : BBox) : bbox_overlap a b = bbox_overlap b a.
Proof.
  destruct a as [[[ax0 at_] ax1] ab], b as [[[bx0 bt] bx1] bb].
  apply eq_true_iff_eq. rewrite !bbox_overlap_iff. tauto.
Qed.

(** X2.  A rectangle with no width or no height, or with its corners out of
    order on an axis, overlaps nothing, on whichever side of the test it
    stands. *)
Theorem bbox_overlap_degenerate (ax0 at_ ax1 ab : Q) (b : BBox) :
  ax1 <= ax0 \/ ab <= at_ ->
  bbox_overlap (ax0, at_, ax1, ab) b = false
  /\ bbox_overlap b (ax0, at_, ax1, ab) = false.
Proof.
  intros Hdeg. destruct b as [[[bx0 bt] bx1] bb].
  split; apply not_true_iff_false; rewrite bbox_overlap_iff; lra.
Qed.

Lemma bbox_overlap_degenerate_witness :
  bbox_overlap (612, 0, 612, 100) (600, 0, 620, 100) = false
  /\ bbox_overlap (600, 0, 620, 100) (612, 0, 612, 100) = false.
Proof.
  apply (bbox_overlap_degenerate 612 0 612 100 (600, 0, 620, 100)).
  left. lra.
Defined.

(** ** clamp_bbox_to_page, beyond containment *)

(** X3.  The order in which the caller gives the two corners does not
    matter: exchanging [x0] with [x1], [top] with [bottom], or both, gives a
    rectangle equal coordinate by coordinate. *)
Theorem clamp_bbox_to_page_corner_order (x0 top x1 bottom : Q) (page : Page.t) :
  bbox_eq (clamp_bbox_to_page (x1, top, x0, bottom) page)
          (clamp_bbox_to_page (x0, top, x1, bottom) page)
  /\ bbox_eq (clamp_bbox_to_page (x0, bottom, x1, top) page)
             (clamp_bbox_to_page (x0, top, x1, bottom) page)
  /\ bbox_eq (clamp_bbox_to_page (x1, bottom, x0, top) page)
             (clamp_bbox_to_page (x0, top, x1, bottom) page).
Proof.
  rewrite !clamp_bbox_to_page_unfold. cbv zeta. unfold bbox_eq.
  generalize (clamp1 x0 (Page.width page)) (clamp1 x1 (Page.width page))
             (clamp1 top (Page.height page)) (clamp1 bottom (Page.height page)).
  intros a b c d. repeat split; split_cmp; lra.
Qed.

Lemma Qabs_ge (d e : Q) : e <= d \/ e <= - d -> e <= Qabs d.
Proof.
  intros [H | H].
  - apply Qle_trans with d; [exact H | apply Qle_Qabs].
  - apply Qle_trans with (- d); [exact H|].
    rewrite <- Qabs_opp. apply Qle_Qabs.
Qed.

Lemma clamp1_lipschitz (u v hi : Q) :
  clamp1 u hi - clamp1 v hi <= Qabs (u - v).
Proof.
  apply Qabs_ge. unfold clamp1, py_max, py_min. split_cmp; lra.
Qed.

(** X4.  Normalization never enlarges a rectangle: on every page the width
    and the height of the result are at most the distances between the
    given coordinates. *)
Theorem clamp_bbox_to_page_never_enlarges (x0 top x1 bottom : Q) (page : Page.t) :
  let '(rx0, rtop, rx1, rbottom) :=
    clamp_bbox_to_page (x0, top, x1, bottom) page in
  rx1 - rx0 <= Qabs (x1 - x0) /\ rbottom - rtop <= Qabs (bottom - top).
Proof.
  rewrite clamp_bbox_to_page_unfold. cbv zeta.
  pose proof (clamp1_lipschitz x0 x1 (Page.width page)) as A1.
  pose proof (clamp1_lipschitz x1 x0 (Page.width page)) as A2.
  pose proof (clamp1_lipschitz top bottom (Page.height page)) as B1.
  pose proof (clamp1_lipschitz bottom top (Page.height page)) as B2.
  assert (Ex : Qabs (x0 - x1) == Qabs (x1 - x0)).
  { rewrite <- (Qabs_opp (x0 - x1)). apply Qabs_wd. ring. }
  assert (Ey : Qabs (top - bottom) == Qabs (bottom - top)).
  { rewrite <- (Qabs_opp (top - bottom)). apply Qabs_wd. ring. }
  rewrite Ex in A1. rewrite Ey in B1.
  generalize dependent (Qabs (x1 - x0)).
  generalize dependent (Qabs (bottom - top)).
  intros. split; split_cmp; lra.
Qed.

(** ** extract_bbox_image_metadata *)

Lemma images_loop_cons (bbox : BBox) (i : nat) (img : Img.t) (imgs : list Img.t) :
  images_loop bbox i (img :: imgs) []
  = (if bbox_overlap bbox (img_bbox img) then [image_record i img] else [])
    ++ images_loop bbox (S i) imgs [].
Proof.
  simpl. fold (img_bbox img). fold (image_record i img).
  destruct (bbox_overlap bbox (img_bbox img)); [|reflexivity].
  now rewrite images_loop_app.
Qed.

Lemma images_loop_In (bbox : BBox) (imgs : list Img.t) :
  forall i rec,
    In rec (images_loop bbox i imgs [])
    <-> exists j img,
          nth_error imgs j = Some img
          /\ bbox_overlap bbox (img_bbox img) = true
          /\ rec = image_record (i + j) img.
Proof.
  induction imgs as [|img imgs IH]; intros i rec.
  - simpl. split; [intros [] | intros ([|j] & img & E & _); discriminate E].
  - rewrite images_loop_cons, in_app_iff, IH. split.
    + intros [Hhd | (j & img' & E & Ho & ->)].
      * destruct (bbox_overlap bbox (img_bbox img)) eqn:Ho; [|destruct Hhd].
        destruct Hhd as [<- | []]. exists 0%nat, img.
        rewrite Nat.add_0_r. now repeat split.
      * exists (S j), img'. rewrite Nat.add_succ_r. now repeat split.
    + intros ([|j] & img' & E & Ho & ->); simpl in E.
      * injection E as <-. left. rewrite Ho, Nat.add_0_r. now left.
      * right. exists j, img'. rewrite Nat.add_succ_r. now repeat split.
Qed.

Lemma images_loop_ids (bbox : BBox) (imgs : list Img.t) :
  forall i,
    StronglySorted lt (map ImageRecord.image_id (images_loop bbox i imgs []))
    /\ Forall (fun id => (i <= id < i + length imgs)%nat)
              (map ImageRecord.image_id (images_loop bbox i imgs []))
    /\ (length (images_loop bbox i imgs []) <= length imgs)%nat.
Proof.
  induction imgs as [|img imgs IH]; intros i.
  - simpl. repeat split; constructor.
  - rewrite images_loop_cons.
    destruct (IH (S i)) as (Hs & Hb & Hl).
    assert (Hb' : Forall (fun id => (i < id < i + length (img :: imgs))%nat)
                    (map ImageRecord.image_id (images_loop bbox (S i) imgs []))).
    { eapply Forall_impl; [|exact Hb]. simpl. intros id Hid. lia. }
    destruct (bbox_overlap bbox (img_bbox img)); simpl.
    + split; [|split].
      * constructor; [exact Hs|]. eapply Forall_impl; [|exact Hb'].
        simpl. intros id Hid. lia.
      * constructor; [lia|]. eapply Forall_impl; [|exact Hb'].
        simpl. intros id Hid. lia.
      * lia.
    + split; [exact Hs|]. split; [|lia].
      eapply Forall_impl; [|exact Hb']. simpl. intros id Hid. lia.
Qed.

Lemma bbox_overlap_no_area (x0 top x1 bottom : Q) (b : BBox) :
  x1 <= x0 \/ bottom <= top -> bbox_overlap (x0, top, x1, bottom) b = false.
Proof.
  intros Hflat. destruct b as [[[bx0 bt] bx1] bb].
  apply not_true_iff_false. rewrite bbox_overlap_iff. lra.
Qed.

Lemma images_loop_none (bbox : BBox) (imgs : list Img.t) :
  (forall b, bbox_overlap bbox b = false) ->
  forall i, images_loop bbox i imgs [] = [].
Proof.
  intros Hno. induction imgs as [|img imgs IH]; intros i; [reflexivity|].
  rewrite images_loop_cons, Hno. simpl. apply IH.
Qed.

(** X5.  With a document and a page, the image extraction returns, and its
    records are exactly the page's images that overlap the normalized box:
    [image_id] is the image's position in [page.images], [image_bbox] its
    four coordinates, and the other fields are copied, absent ones staying
    absent. *)
Theorem extract_bbox_image_metadata_exact opener path pn bbox pdf page :
  opener path = Some pdf ->
  py_getitem pdf pn = Some page ->
  exists part,
    extract_bbox_image_metadata opener path pn bbox = Some part
    /\ ImagePart.bbox part = clamp_bbox_to_page bbox page
    /\ forall rec,
         In rec (ImagePart.images part)
         <-> exists img,
               nth_error (Page.images page) (ImageRecord.image_id rec) = Some img
               /\ bbox_overlap (clamp_bbox_to_page bbox page) (img_bbox img) = true
               /\ rec = image_record (ImageRecord.image_id rec) img.
Proof.
  intros Ho Hp. unfold extract_bbox_image_metadata. rewrite Ho, Hp.
  eexists. split; [reflexivity|]. split; [reflexivity|]. simpl.
  intros rec. rewrite images_loop_In. split.
  - intros (j & img & E & Hov & ->). exists img. now repeat split.
  - intros (img & E & Hov & Hrec). exists (ImageRecord.image_id rec), img.
    now repeat split.
Qed.

Lemma extract_bbox_image_metadata_exact_witness :
  exists part,
    extract_bbox_image_metadata sample_open "doc.pdf" 0 (40, 40, 70, 70)
    = Some part
    /\ ImagePart.bbox part
       = clamp_bbox_to_page (40, 40, 70, 70) sample_page
    /\ forall rec,
         In rec (ImagePart.images part)
         <-> exists img,
               nth_error (Page.images sample_page) (ImageRecord.image_id rec)
               = Some img
               /\ bbox_overlap (clamp_bbox_to_page (40, 40, 70, 70) sample_page)
                               (img_bbox img) = true
               /\ rec = image_record (ImageRecord.image_id rec) img.
Proof.
  apply (extract_bbox_image_metadata_exact sample_open "doc.pdf" 0
           (40, 40, 70, 70) [sample_page] sample_page); reflexivity.
Defined.

(** X6.  The records come in the order of the page's image list: their
    [image_id]s increase strictly (so no image is reported twice), each is a
    position of that list, and there are at most as many records as the page
    has images. *)
Theorem extract_bbox_image_metadata_ids opener path pn bbox pdf page part :
  opener path = Some pdf ->
  py_getitem pdf pn = Some page ->
  extract_bbox_image_metadata opener path pn bbox = Some part ->
  StronglySorted lt (map ImageRecord.image_id (ImagePart.images part))
  /\ Forall (fun id => (id < length (Page.images page))%nat)
            (map ImageRecord.image_id (ImagePart.images part))
  /\ (ImagePart.image_count part <= length (Page.images page))%nat.
Proof.
  intros Ho Hp. unfold extract_bbox_image_metadata. rewrite Ho, Hp.
  intros [= <-]. simpl.
  destruct (images_loop_ids (clamp_bbox_to_page bbox page) (Page.images page) 0)
    as (Hs & Hb & Hl).
  split; [exact Hs|]. split; [|exact Hl].
  eapply Forall_impl; [|exact Hb]. simpl. intros id Hid. lia.
Qed.

Lemma extract_bbox_image_metadata_ids_witness :
  exists part,
    extract_bbox_image_metadata sample_open "doc.pdf" 0 (0, 0, 612, 792)
    = Some part
    /\ map ImageRecord.image_id (ImagePart.images part) = [0; 1]%nat
    /\ StronglySorted lt (map ImageRecord.image_id (ImagePart.images part))
    /\ Forall (fun id => (id < length (Page.images sample_page))%nat)
              (map ImageRecord.image_id (ImagePart.images part))
    /\ (ImagePart.image_count part <= length (Page.images sample_page))%nat.
Proof.
  eexists. split; [reflexivity|]. split; [reflexivity|].
  apply (extract_bbox_image_metadata_ids sample_open "doc.pdf" 0
           (0, 0, 612, 792) [sample_page] sample_page); reflexivity.
Defined.

(** X7.  A box that lies entirely beyond one edge of the page, or that has
    no width or no height, finds no image: it is normalized to a rectangle
    without area, which overlaps nothing. *)
Theorem extract_bbox_image_metadata_off_page
    opener path pn (x0 top x1 bottom : Q) pdf page :
  opener path = Some pdf ->
  py_getitem pdf pn = Some page ->
  (Page.width page <= x0 /\ Page.width page <= x1)
  \/ (x0 <= 0 /\ x1 <= 0)
  \/ (Page.height page <= top /\ Page.height page <= bottom)
  \/ (top <= 0 /\ bottom <= 0)
  \/ x0 == x1 \/ top == bottom ->
  exists part,
    extract_bbox_image_metadata opener path pn (x0, top, x1, bottom) = Some part
    /\ ImagePart.images part = []
    /\ ImagePart.image_count part = 0%nat.
Proof.
  intros Ho Hp Hout. unfold extract_bbox_image_metadata. rewrite Ho, Hp.
  rewrite images_loop_none; [now eexists|].
  intros b. rewrite clamp_bbox_to_page_unfold. cbv zeta.
  apply bbox_overlap_no_area.
  unfold clamp1, py_max, py_min. split_cmp; lra.
Qed.

Lemma extract_bbox_image_metadata_off_page_witness :
  exists part,
    extract_bbox_image_metadata sample_open "doc.pdf" 0 (700, 0, 900, 100)
    = Some part
    /\ ImagePart.images part = []
    /\ ImagePart.image_count part = 0%nat.
Proof.
  apply (extract_bbox_image_metadata_off_page sample_open "doc.pdf" 0
           700 0 900 100 [sample_page] sample_page);
    [reflexivity | reflexivity | left; simpl; lra].
Defined.

(** ** When a request returns *)

Lemma py_getitem_None {A : Type} (l : list A) (i : Z) :
  py_getitem l i = None
  <-> (i < - Z.of_nat (length l) \/ Z.of_nat (length l) <= i)%Z.
Proof.
  unfold py_getitem. cbv zeta.
  destruct (Z.leb_spec 0 i) as [Hi | Hi].
  - rewrite nth_error_None. lia.
  - destruct (Z.leb_spec (- Z.of_nat (length l)) i) as [Hn | Hn].
    + rewrite nth_error_None. lia.
    + split; [lia | reflexivity].
Qed.

Lemma py_getitem_negative {A : Type} (l : list A) (i : Z) :
  (- Z.of_nat (length l) <= i < 0)%Z ->
  py_getitem l i = py_getitem l (Z.of_nat (length l) + i).
Proof.
  intros Hi. unfold py_getitem. cbv zeta.
  destruct (Z.leb_spec 0 i) as [H0 | H0]; [lia|].
  destruct (Z.leb_spec (- Z.of_nat (length l)) i) as [Hn | Hn]; [|lia].
  destruct (Z.leb_spec 0 (Z.of_nat (length l) + i)) as [Hp | Hp]; [|lia].
  reflexivity.
Qed.

Lemma extract_bbox_table_signal_returns opener path pn bbox pdf page cropped :
  opener path = Some pdf ->
  py_getitem pdf pn = Some page ->
  Page.crop page (clamp_bbox_to_page bbox page) = Some cropped ->
  extract_bbox_table_signal opener path pn bbox
  = Some (table_signal_of pn (clamp_bbox_to_page bbox page) cropped).
Proof.
  intros Ho Hp Hc. unfold extract_bbox_table_signal. now rewrite Ho, Hp, Hc.
Qed.

(** X8.  A request returns a report exactly when the document opens, the
    page exists and the crop of the normalized box succeeds; there is no
    other way for it to fail.  The image extraction alone does not crop: it
    returns exactly when the document opens and the page exists. *)
Theorem extract_bbox_metadata_returns_iff opener path pn bbox :
  ((exists report, extract_bbox_metadata opener path pn bbox = Some report)
   <-> exists pdf page cropped,
         opener path = Some pdf
         /\ py_getitem pdf pn = Some page
         /\ Page.crop page (clamp_bbox_to_page bbox page) = Some cropped)
  /\ ((exists part, extract_bbox_image_metadata opener path pn bbox = Some part)
      <-> exists pdf page,
            opener path = Some pdf /\ py_getitem pdf pn = Some page).
Proof.
  split; split.
  - intros (report & E). unfold extract_bbox_metadata in E.
    destruct (extract_bbox_text_metadata _ _ _ _) as [text_part|] eqn:Et;
      [|discriminate].
    unfold extract_bbox_text_metadata in Et.
    destruct (opener path) as [pdf|] eqn:Eo; [|discriminate].
    destruct (py_getitem pdf pn) as [page|] eqn:Ep; [|discriminate].
    destruct (Page.crop page _) as [cropped|] eqn:Ec; [|discriminate].
    now exists pdf, page, cropped.
  - intros (pdf & page & cropped & Ho & Hp & Hc).
    unfold extract_bbox_metadata.
    destruct (extract_bbox_text_metadata_returns _ _ _ _ _ _ _ Ho Hp Hc)
      as (text_part & ->).
    rewrite (extract_bbox_table_signal_returns _ _ _ _ _ _ _ Ho Hp Hc).
    unfold extract_bbox_image_metadata. rewrite Ho, Hp. now eexists.
  - intros (part & E). unfold extract_bbox_image_metadata in E.
    destruct (opener path) as [pdf|] eqn:Eo; [|discriminate].
    destruct (py_getitem pdf pn) as [page|] eqn:Ep; [|discriminate].
    now exists pdf, page.
  - intros (pdf & page & Ho & Hp).
    unfold extract_bbox_image_metadata. rewrite Ho, Hp. now eexists.
Qed.

(** X9.  A page number that is not a position of the document's page list,
    counted from the front or, when negative, from the end, makes every
    extraction and the whole request fail. *)
Theorem page_out_of_range_fails opener path pn bbox pdf :
  opener path = Some pdf ->
  (pn < - Z.of_nat (length pdf) \/ Z.of_nat (length pdf) <= pn)%Z ->
  extract_bbox_text_metadata opener path pn bbox = None
  /\ extract_bbox_image_metadata opener path pn bbox = None
  /\ extract_bbox_table_signal opener path pn bbox = None
  /\ extract_bbox_metadata opener path pn bbox = None.
Proof.
  intros Ho Hr. apply py_getitem_None in Hr.
  assert (Et : extract_bbox_text_metadata opener path pn bbox = None).
  { unfold extract_bbox_text_metadata. now rewrite Ho, Hr. }
  split; [exact Et|]. split; [|split].
  - unfold extract_bbox_image_metadata. now rewrite Ho, Hr.
  - unfold extract_bbox_table_signal. now rewrite Ho, Hr.
  - unfold extract_bbox_metadata. now rewrite Et.
Qed.

Lemma page_out_of_range_fails_witness :
  extract_bbox_text_metadata sample_open "doc.pdf" 1 (0, 0, 10, 10) = None
  /\ extract_bbox_image_metadata sample_open "doc.pdf" 1 (0, 0, 10, 10) = None
  /\ extract_bbox_table_signal sample_open "doc.pdf" 1 (0, 0, 10, 10) = None
  /\ extract_bbox_metadata sample_open "doc.pdf" 1 (0, 0, 10, 10) = None.
Proof.
  apply (page_out_of_range_fails sample_open "doc.pdf" 1 (0, 0, 10, 10)
           [sample_page]); [reflexivity | simpl; lia].
Defined.

(** X10.  What a returned report echoes: the path and page number of the
    request, and the normalized box, which is also the box of its table
    signal; the table signal carries the same page number. *)
Theorem report_echoes_request opener path pn bbox report :
  extract_bbox_metadata opener path pn bbox = Some report ->
  exists pdf page,
    opener path = Some pdf
    /\ py_getitem pdf pn = Some page
    /\ RegionReport.pdf_path report = path
    /\ RegionReport.page_number report = pn
    /\ RegionReport.bbox report = clamp_bbox_to_page bbox page
    /\ TableSignal.bbox (RegionReport.table_signal report)
       = clamp_bbox_to_page bbox page
    /\ TableSignal.page_number (RegionReport.table_signal report) = pn.
Proof.
  unfold extract_bbox_metadata.
  destruct (extract_bbox_text_metadata _ _ _ _) as [text_part|] eqn:Et;
    [|discriminate].
  destruct (extract_bbox_image_metadata _ _ _ _) as [image_part|];
    [|discriminate].
  destruct (extract_bbox_table_signal _ _ _ _) as [table_part|] eqn:Eb;
    [|discriminate].
  intros [= <-]. simpl.
  unfold extract_bbox_text_metadata in Et.
  unfold extract_bbox_table_signal in Eb.
  destruct (opener path) as [pdf|] eqn:Eo; [|discriminate].
  destruct (py_getitem pdf pn) as [page|] eqn:Ep; [|discriminate].
  destruct (Page.crop page _) as [cropped|]; [|discriminate].
  injection Eb as <-. exists pdf, page.
  destruct (Cropped.extract_words cropped) as [|w ws].
  - injection Et as <-. now repeat split.
  - destruct (lines_df (w :: ws)); [|discriminate].
    injection Et as <-. now repeat split.
Qed.

Lemma report_echoes_request_witness :
  exists report,
    extract_bbox_metadata sample_open "doc.pdf" 0 (700, 900, 20, -5)
    = Some report
    /\ RegionReport.bbox report = (20, 0, 612, 792)
    /\ exists pdf page,
         sample_open "doc.pdf"%string = Some pdf
         /\ py_getitem pdf 0 = Some page
         /\ RegionReport.pdf_path report = "doc.pdf"%string
         /\ RegionReport.page_number report = 0%Z
         /\ RegionReport.bbox report
            = clamp_bbox_to_page (700, 900, 20, -5) page
         /\ TableSignal.bbox (RegionReport.table_signal report)
            = clamp_bbox_to_page (700, 900, 20, -5) page
         /\ TableSignal.page_number (RegionReport.table_signal report) = 0%Z.
Proof.
  eexists. split; [vm_compute; reflexivity|]. split; [reflexivity|].
  apply (report_echoes_request sample_open "doc.pdf" 0 (700, 900, 20, -5)).
  vm_compute. reflexivity.
Defined.

(** X11.  A negative page number counts from the end of the document: with
    [n] pages and [-n <= page_number < 0] the request reads page
    [n + page_number], and the report differs from that page's only in the
    page number it echoes. *)
Theorem negative_page_number_counts_from_end opener path pn bbox pdf :
  opener path = Some pdf ->
  (- Z.of_nat (length pdf) <= pn < 0)%Z ->
  option_map report_content (extract_bbox_metadata opener path pn bbox)
  = option_map report_content
      (extract_bbox_metadata opener path (Z.of_nat (length pdf) + pn) bbox).
Proof.
  intros Ho Hr. pose proof (py_getitem_negative pdf pn Hr) as Hg.
  unfold extract_bbox_metadata, extract_bbox_text_metadata,
    extract_bbox_image_metadata, extract_bbox_table_signal.
  rewrite Ho, <- Hg.
  destruct (py_getitem pdf pn) as [page|]; [|reflexivity].
  destruct (Page.crop page _) as [cropped|]; [|reflexivity].
  destruct (Cropped.extract_words cropped) as [|w ws]; [reflexivity|].
  destruct (lines_df (w :: ws)); reflexivity.
Qed.

Lemma negative_page_number_counts_from_end_witness :
  option_map report_content
    (extract_bbox_metadata sample_open "doc.pdf" (-1) (0, 0, 10, 10))
  = option_map report_content
      (extract_bbox_metadata sample_open "doc.pdf"
         (Z.of_nat (length [sample_page]) + -1) (0, 0, 10, 10)).
Proof.
  apply (negative_page_number_counts_from_end sample_open "doc.pdf" (-1)
           (0, 0, 10, 10) [sample_page]); [reflexivity | simpl; lia].
Defined.

(** ** Sorting *)

Section SortedFacts.
Context {A : Type} (le : A -> A -> bool).
Hypothesis le_total : forall a b, le a b = true \/ le b a = true.
Hypothesis le_trans :
  forall a b c, le a b = true -> le b c = true -> le a c = true.

Lemma insert_sorted_sorted (a : A) (l : list A) :
  StronglySorted (fun x y => le x y = true) l ->
  StronglySorted (fun x y => le x y = true) (insert_sorted le a l).
Proof.
  induction l as [|b l IH]; intros Hs; simpl.
  - constructor; constructor.
  - inversion Hs as [|? ? Hs' Hb]; subst.
    destruct (le a b) eqn:E.
    + constructor; [exact Hs|]. constructor; [exact E|].
      eapply Forall_impl; [|exact Hb]. intros c Hc. now apply le_trans with b.
    + constructor; [now apply IH|].
      apply Forall_forall. intros c Hc.
      apply insert_sorted_In in Hc as [<- | Hc].
      * destruct (le_total a b) as [H | H]; [congruence | exact H].
      * rewrite Forall_forall in Hb. now apply Hb.
Qed.

Lemma sort_values_sorted (l : list A) :
  StronglySorted (fun x y => le x y = true) (sort_values le l).
Proof.
  induction l as [|a l IH]; simpl; [constructor|].
  now apply insert_sorted_sorted.
Qed.
End SortedFacts.

Lemma insert_sorted_Permutation {A : Type} (le : A -> A -> bool) (a : A)
    (l : list A) :
  Permutation (insert_sorted le a l) (a :: l).
Proof.
  induction l as [|b l IH]; simpl; [reflexivity|].
  destruct (le a b); [reflexivity|].
  rewrite IH. apply perm_swap.
Qed.

Lemma sort_values_Permutation {A : Type} (le : A -> A -> bool) (l : list A) :
  Permutation (sort_values le l) l.
Proof.
  induction l as [|a l IH]; simpl; [reflexivity|].
  rewrite insert_sorted_Permutation. now constructor.
Qed.

Lemma StronglySorted_filter {A : Type} (R : A -> A -> Prop) (f : A -> bool)
    (l : list A) :
  StronglySorted R l -> StronglySorted R (filter f l).
Proof.
  induction 1 as [|a l Hs IH Ha]; simpl; [constructor|].
  destruct (f a); [|exact IH]. constructor; [exact IH|].
  apply Forall_forall. intros b Hb. apply filter_In in Hb as [Hb _].
  rewrite Forall_forall in Ha. now apply Ha.
Qed.

Lemma StronglySorted_weaken {A : Type} (R R' : A -> A -> Prop) (l : list A) :
  (forall a b, In a l -> In b l -> R a b -> R' a b) ->
  StronglySorted R l -> StronglySorted R' l.
Proof.
  intros Himp Hs. induction Hs as [|a l Hs IH Ha]; [constructor|].
  constructor.
  - apply IH. intros x y Hx Hy. apply Himp; now right.
  - apply Forall_forall. intros b Hb. rewrite Forall_forall in Ha.
    apply Himp; [now left | now right | now apply Ha].
Qed.

Lemma line_id_x0_le_iff (r1 r2 : Row.t) :
  line_id_x0_le r1 r2 = true
  <-> (Row.line_id r1 < Row.line_id r2)%Z
      \/ (Row.line_id r1 = Row.line_id r2 /\ left_to_right r1 r2).
Proof.
  unfold line_id_x0_le, left_to_right.
  rewrite orb_true_iff, andb_true_iff, negb_true_iff, Z.ltb_lt, Z.eqb_eq,
    Qltb_false.
  reflexivity.
Qed.

Lemma line_id_x0_le_total (r1 r2 : Row.t) :
  line_id_x0_le r1 r2 = true \/ line_id_x0_le r2 r1 = true.
Proof.
  rewrite !line_id_x0_le_iff. unfold left_to_right.
  destruct (Z.lt_trichotomy (Row.line_id r1) (Row.line_id r2)) as [H | [H | H]];
    [now left; left | | now right; left].
  destruct (Qlt_le_dec (Word.x0 (Row.word r2)) (Word.x0 (Row.word r1))).
  - right. right. split; [now symmetry | lra].
  - left. right. now split.
Qed.

Lemma line_id_x0_le_trans (r1 r2 r3 : Row.t) :
  line_id_x0_le r1 r2 = true -> line_id_x0_le r2 r3 = true ->
  line_id_x0_le r1 r3 = true.
Proof.
  rewrite !line_id_x0_le_iff. unfold left_to_right.
  intros [H1 | [H1 L1]] [H2 | [H2 L2]].
  - left. lia.
  - left. lia.
  - left. lia.
  - right. split; [congruence | lra].
Qed.

Lemma top_le_iff (l1 l2 : Line.t) : top_le l1 l2 = true <-> top_to_bottom l1 l2.
Proof.
  unfold top_le, top_to_bottom. now rewrite negb_true_iff, Qltb_false.
Qed.

(** ** The lines of a region *)

Lemma fold_left_py_min_le (l : list Q) :
  forall x, fold_left py_min l x <= x
            /\ Forall (fun y => fold_left py_min l x <= y) l.
Proof.
  induction l as [|y l IH]; intros x; simpl.
  - split; [lra | constructor].
  - destruct (IH (py_min x y)) as [Hx Hl].
    pose proof (py_min_le_l x y). pose proof (py_min_le_r x y).
    split; [lra|]. constructor; [lra | exact Hl].
Qed.

Lemma fold_left_py_max_ge (l : list Q) :
  forall x, x <= fold_left py_max l x
            /\ Forall (fun y => y <= fold_left py_max l x) l.
Proof.
  induction l as [|y l IH]; intros x; simpl.
  - split; [lra | constructor].
  - destruct (IH (py_max x y)) as [Hx Hl].
    pose proof (py_max_ge_l x y). pose proof (py_max_ge_r x y).
    split; [lra|]. constructor; [lra | exact Hl].
Qed.

Lemma fold_left_py_max_In (l : list Q) (x : Q) :
  In (fold_left py_max l x) (x :: l).
Proof.
  revert x. induction l as [|y l IH]; intros x; simpl; [now left|].
  destruct (IH (py_max x y)) as [E | Hin]; [|now right; right].
  rewrite <- E. unfold py_max. destruct (Qltb x y); [right; now left | now left].
Qed.

Lemma col_min_least (l : list Q) (m : Q) :
  col_min l = Some m -> In m l /\ forall y, In y l -> m <= y.
Proof.
  intros E. split; [now apply col_min_In|].
  destruct l as [|x l]; [discriminate|]. injection E as <-.
  destruct (fold_left_py_min_le l x) as [Hx Hl]. rewrite Forall_forall in Hl.
  intros y [<- | Hy]; [exact Hx | now apply Hl].
Qed.

Lemma col_max_greatest (l : list Q) (m : Q) :
  col_max l = Some m -> In m l /\ forall y, In y l -> y <= m.
Proof.
  destruct l as [|x l]; [discriminate|]. intros [= <-].
  split; [apply fold_left_py_max_In|].
  destruct (fold_left_py_max_ge l x) as [Hx Hl]. rewrite Forall_forall in Hl.
  intros y [<- | Hy]; [exact Hx | now apply Hl].
Qed.

(** The columns of an aggregated line, one by one. *)
Lemma agg_fields (g : list Row.t) (line : Line.t) :
  agg g = Some line ->
  Line.text line = String.concat " " (map (fun r => Word.text (Row.word r)) g)
  /\ col_min (map (fun r => Word.x0 (Row.word r)) g) = Some (Line.x0 line)
  /\ col_min (map (fun r => Word.top (Row.word r)) g) = Some (Line.top line)
  /\ col_max (map (fun r => Word.x1 (Row.word r)) g) = Some (Line.x1 line)
  /\ col_max (map (fun r => Word.bottom (Row.word r)) g)
     = Some (Line.bottom line).
Proof.
  unfold agg. cbv zeta.
  destruct (most_common_value String.eqb _); [|discriminate].
  destruct (most_common_value Qeq_bool _); [|discriminate].
  destruct (col_min (map (fun r => Word.x0 (Row.word r)) g)); [|discriminate].
  destruct (col_min (map (fun r => Word.top (Row.word r)) g)); [|discriminate].
  destruct (col_max (map (fun r => Word.x1 (Row.word r)) g)); [|discriminate].
  destruct (col_max (map (fun r => Word.bottom (Row.word r)) g));
    [|discriminate].
  intros [= <-]. simpl. now repeat split.
Qed.

(** X12.  The box of an aggregated line is the bounding envelope of its
    words: every word of the group lies within it, and each of its four
    sides is the side of some word of the group. *)
Theorem agg_bounding_envelope (g : list Row.t) (line : Line.t) :
  agg g = Some line ->
  (forall r, In r g ->
             Line.x0 line <= Word.x0 (Row.word r)
             /\ Line.top line <= Word.top (Row.word r)
             /\ Word.x1 (Row.word r) <= Line.x1 line
             /\ Word.bottom (Row.word r) <= Line.bottom line)
  /\ (exists r, In r g /\ Word.x0 (Row.word r) = Line.x0 line)
  /\ (exists r, In r g /\ Word.top (Row.word r) = Line.top line)
  /\ (exists r, In r g /\ Word.x1 (Row.word r) = Line.x1 line)
  /\ (exists r, In r g /\ Word.bottom (Row.word r) = Line.bottom line).
Proof.
  intros Ha. destruct (agg_fields g line Ha) as (_ & E0 & Et & E1 & Eb).
  apply col_min_least in E0 as [I0 L0], Et as [It Lt].
  apply col_max_greatest in E1 as [I1 L1], Eb as [Ib Lb].
  split.
  - intros r Hr. repeat split.
    + apply L0. now apply (in_map (fun r => Word.x0 (Row.word r))).
    + apply Lt. now apply (in_map (fun r => Word.top (Row.word r))).
    + apply L1. now apply (in_map (fun r => Word.x1 (Row.word r))).
    + apply Lb. now apply (in_map (fun r => Word.bottom (Row.word r))).
  - apply in_map_iff in I0 as (r0 & A0 & B0), It as (rt & At & Bt),
        I1 as (r1 & A1 & B1), Ib as (rb & Ab & Bb).
    split; [now exists r0|]. split; [now exists rt|].
    split; [now exists r1 | now exists rb].
Qed.

Lemma agg_bounding_envelope_witness :
  exists line,
    agg tie_group = Some line
    /\ (Line.x0 line, Line.top line, Line.x1 line, Line.bottom line)
       = (10, 50, 80, 60)
    /\ (forall r, In r tie_group ->
                  Line.x0 line <= Word.x0 (Row.word r)
                  /\ Line.top line <= Word.top (Row.word r)
                  /\ Word.x1 (Row.word r) <= Line.x1 line
                  /\ Word.bottom (Row.word r) <= Line.bottom line)
    /\ (exists r, In r tie_group /\ Word.x0 (Row.word r) = Line.x0 line)
    /\ (exists r, In r tie_group /\ Word.top (Row.word r) = Line.top line)
    /\ (exists r, In r tie_group /\ Word.x1 (Row.word r) = Line.x1 line)
    /\ (exists r, In r tie_group /\ Word.bottom (Row.word r) = Line.bottom line).
Proof.
  eexists. split; [vm_compute; reflexivity|]. split; [reflexivity|].
  apply (agg_bounding_envelope tie_group). vm_compute. reflexivity.
Defined.

(** X13.  The lines come top to bottom: in the list that line
    reconstruction returns, the [top] of a line is at most the [top] of
    every line after it. *)
Theorem lines_df_top_to_bottom (words : list Word.t) (ls : list Line.t) :
  lines_df words = Some ls -> StronglySorted top_to_bottom ls.
Proof.
  unfold lines_df.
  destruct (mapM _ (line_groups words)) as [ls0|]; [|discriminate].
  intros [= <-].
  apply (StronglySorted_weaken (fun a b => top_le a b = true)).
  - intros a b _ _. apply top_le_iff.
  - apply sort_values_sorted.
    + intros a b. rewrite !top_le_iff. unfold top_to_bottom.
      destruct (Qlt_le_dec (Line.top b) (Line.top a)); [right | left]; lra.
    + intros a b c. rewrite !top_le_iff. unfold top_to_bottom. lra.
Qed.

Lemma lines_df_top_to_bottom_witness :
  exists ls,
    lines_df scenario_sample = Some ls
    /\ map Line.top ls = [100.2; 100.6; 130.0]
    /\ StronglySorted top_to_bottom ls.
Proof.
  eexists. split; [vm_compute; reflexivity|]. split; [reflexivity|].
  apply (lines_df_top_to_bottom scenario_sample). vm_compute. reflexivity.
Defined.

(** X14.  Every line that is returned is the aggregation of one group: the
    words of the input whose [top] rounds to one integer, taken from left to
    right, and the line's text is their texts in that order, separated by
    single spaces. *)
Theorem lines_df_line_content (words : list Word.t) (ls : list Line.t)
    (line : Line.t) :
  lines_df words = Some ls -> In line ls ->
  exists k g,
    In (k, g) (line_groups words)
    /\ agg g = Some line
    /\ (forall r, In r g
                  <-> In (Row.word r) words
                      /\ round_half_even (Word.top (Row.word r)) = k
                      /\ Row.line_id r = k)
    /\ StronglySorted left_to_right g
    /\ Line.text line
       = String.concat " " (map (fun r => Word.text (Row.word r)) g).
Proof.
  intros Hls Hin.
  destruct (lines_df_returns words) as (ls' & E & _ & Hchar).
  rewrite E in Hls. injection Hls as <-.
  apply Hchar in Hin as (k & g & Hg & Ha).
  exists k, g. split; [exact Hg|]. split; [exact Ha|]. split; [|split].
  - intros r. rewrite (line_groups_In _ _ _ r Hg), wdf_In. split.
    + intros [[Hw Hid] Hk]. split; [exact Hw|]. split; congruence.
    + intros (Hw & Hr & Hk). split; [split|]; congruence.
  - pose proof Hg as Hg'. unfold line_groups in Hg'.
    apply groupby_line_id_In in Hg' as [_ ->].
    apply (StronglySorted_weaken
             (fun a b => line_id_x0_le a b = true)).
    + intros a b Ha' Hb'. apply filter_In in Ha' as [_ Ka], Hb' as [_ Kb].
      apply Z.eqb_eq in Ka, Kb. rewrite line_id_x0_le_iff.
      intros [Hlt | [_ Hx]]; [lia | exact Hx].
    + apply StronglySorted_filter, sort_values_sorted.
      * apply line_id_x0_le_total.
      * apply line_id_x0_le_trans.
  - now apply agg_fields.
Qed.

Lemma lines_df_line_content_witness :
  exists ls line,
    lines_df scenario_sample = Some ls
    /\ nth_error ls 0 = Some line
    /\ exists k g,
         In (k, g) (line_groups scenario_sample)
         /\ agg g = Some line
         /\ (forall r, In r g
                       <-> In (Row.word r) scenario_sample
                           /\ round_half_even (Word.top (Row.word r)) = k
                           /\ Row.line_id r = k)
         /\ StronglySorted left_to_right g
         /\ Line.text line
            = String.concat " " (map (fun r => Word.text (Row.word r)) g).
Proof.
  eexists. eexists. split; [vm_compute; reflexivity|].
  split; [reflexivity|].
  eapply (lines_df_line_content scenario_sample);
    [vm_compute; reflexivity | left; reflexivity].
Defined.

(** ** No word is lost, none is counted twice *)

Lemma concat_map_nil {A B : Type} (ks : list A) :
  concat (map (fun _ => @nil B) ks) = [].
Proof. induction ks as [|k ks IH]; simpl; [reflexivity | exact IH]. Qed.

(** Filtering the rows by each key of a duplicate-free list that holds every
    row's key splits the rows without loss. *)
Lemma groups_partition (rows : list Row.t) (ks : list Z) :
  NoDup ks ->
  (forall r, In r rows -> In (Row.line_id r) ks) ->
  Permutation
    (concat (map (fun k => filter (fun r => (Row.line_id r =? k)%Z) rows) ks))
    rows.
Proof.
  intros Hnd. induction rows as [|r rows IH]; intros Hcov.
  - simpl. now rewrite concat_map_nil.
  - assert (IH' := IH (fun r' Hr' => Hcov r' (or_intror Hr'))). clear IH.
    destruct (in_split _ _ (Hcov r (or_introl eq_refl))) as (ks1 & ks2 & E).
    rewrite E in Hnd. apply NoDup_remove_2 in Hnd.
    assert (Hother : forall ks', (forall k, In k ks' -> In k (ks1 ++ ks2)) ->
              map (fun k => filter (fun r' => (Row.line_id r' =? k)%Z) (r :: rows)) ks'
              = map (fun k => filter (fun r' => (Row.line_id r' =? k)%Z) rows) ks').
    { intros ks' Hsub. apply map_ext_in. intros k Hk. simpl.
      destruct (Z.eqb_spec (Row.line_id r) k) as [<- | _]; [|reflexivity].
      exfalso. apply Hnd. now apply Hsub. }
    assert (Hown :
              filter (fun r' => (Row.line_id r' =? Row.line_id r)%Z) (r :: rows)
              = r :: filter (fun r' => (Row.line_id r' =? Row.line_id r)%Z) rows)
      by (simpl; now rewrite Z.eqb_refl).
    rewrite E in IH' |- *.
    rewrite map_app, concat_app, map_cons, concat_cons in IH' |- *.
    rewrite (Hother ks1) by (intros k Hk; apply in_or_app; now left).
    rewrite (Hother ks2) by (intros k Hk; apply in_or_app; now right).
    rewrite Hown. rewrite <- app_comm_cons.
    apply Permutation_sym, Permutation_cons_app, Permutation_sym.
    exact IH'.
Qed.

Lemma group_keys_NoDup (rows : list Row.t) : NoDup (group_keys rows).
Proof.
  unfold group_keys.
  eapply Permutation_NoDup;
    [apply Permutation_sym, sort_values_Permutation | apply NoDup_nodup].
Qed.

Lemma groupby_line_id_partition (rows : list Row.t) :
  Permutation (concat (map snd (groupby_line_id rows))) rows.
Proof.
  unfold groupby_line_id. rewrite map_map. simpl.
  apply groups_partition; [apply group_keys_NoDup|].
  intros r Hr. apply group_keys_In. now exists r.
Qed.

Lemma wdf_words (words : list Word.t) : map Row.word (wdf words) = words.
Proof.
  unfold wdf. rewrite map_map. simpl. apply map_id.
Qed.

(** X15.  The groups split the words of the input: taken together, group
    after group, they hold each word exactly as often as the input does, so
    no word is dropped and none lands in two lines. *)
Theorem line_groups_partition_words (words : list Word.t) :
  Permutation (map Row.word (concat (map snd (line_groups words)))) words.
Proof.
  unfold line_groups.
  rewrite groupby_line_id_partition, sort_values_Permutation.
  now rewrite wdf_words.
Qed.

(** ** How many lines *)

Lemma nodup_length_le {A : Type} (dec : forall x y : A, {x = y} + {x <> y})
    (l : list A) :
  (length (nodup dec l) <= length l)%nat.
Proof.
  induction l as [|a l IH]; simpl; [lia|].
  destruct (in_dec dec a l); simpl; lia.
Qed.

Lemma nodup_length_Permutation {A : Type}
    (dec : forall x y : A, {x = y} + {x <> y}) (l l' : list A) :
  Permutation l l' -> length (nodup dec l) = length (nodup dec l').
Proof.
  intros Hp. apply Permutation_length, NoDup_Permutation;
    [apply NoDup_nodup | apply NoDup_nodup|].
  intros x. rewrite !nodup_In. split; apply Permutation_in;
    [exact Hp | now apply Permutation_sym].
Qed.

Lemma line_groups_length (words : list Word.t) :
  length (line_groups words)
  = length (nodup Z.eq_dec
              (map (fun w => round_half_even (Word.top w)) words)).
Proof.
  unfold line_groups, groupby_line_id, group_keys.
  rewrite length_map, sort_values_length.
  rewrite (nodup_length_Permutation Z.eq_dec _ (map Row.line_id (wdf words)))
    by apply Permutation_map, sort_values_Permutation.
  unfold wdf. now rewrite map_map.
Qed.

(** The number of lines is the number of distinct integers the tops round
    to. *)
Lemma lines_df_length (words : list Word.t) (ls : list Line.t) :
  lines_df words = Some ls ->
  length ls
  = length (nodup Z.eq_dec
              (map (fun w => round_half_even (Word.top w)) words)).
Proof.
  intros E. destruct (lines_df_returns words) as (ls' & E' & Hlen & _).
  rewrite E in E'. injection E' as <-. rewrite Hlen. apply line_groups_length.
Qed.

(** X16.  With a document, a page and a crop, the report's
    [text_line_count] is the number of distinct integers that the tops of
    the crop's words round to: at most the number of words, and 0, with an
    empty [text], exactly when the crop has no word. *)
Theorem report_text_line_count opener path pn bbox pdf page cropped :
  opener path = Some pdf ->
  py_getitem pdf pn = Some page ->
  Page.crop page (clamp_bbox_to_page bbox page) = Some cropped ->
  exists report,
    extract_bbox_metadata opener path pn bbox = Some report
    /\ RegionReport.text_line_count report
       = length (nodup Z.eq_dec
                   (map (fun w => round_half_even (Word.top w))
                        (Cropped.extract_words cropped)))
    /\ (RegionReport.text_line_count report
        <= length (Cropped.extract_words cropped))%nat
    /\ (RegionReport.text report = [] <-> Cropped.extract_words cropped = []).
Proof.
  intros Ho Hp Hc.
  unfold extract_bbox_metadata, extract_bbox_text_metadata,
    extract_bbox_image_metadata, extract_bbox_table_signal.
  rewrite Ho, Hp, Hc.
  destruct (Cropped.extract_words cropped) as [|w ws] eqn:Ew.
  - eexists. split; [reflexivity|]. simpl. now repeat split.
  - destruct (lines_df_returns (w :: ws)) as (ls & E & _).
    rewrite E. eexists. split; [reflexivity|]. simpl RegionReport.text_line_count.
    simpl RegionReport.text.
    pose proof (lines_df_length _ _ E) as Hlen. split; [exact Hlen|].
    split.
    + rewrite Hlen.
      etransitivity; [apply nodup_length_le|]. now rewrite length_map.
    + split; [|discriminate]. intros ->. simpl in Hlen.
      destruct (in_dec Z.eq_dec _ _) as [Hin | _]; [|discriminate Hlen].
      exfalso. symmetry in Hlen. apply length_zero_iff_nil in Hlen.
      apply (nodup_In Z.eq_dec) in Hin. now rewrite Hlen in Hin.
Qed.

Lemma report_text_line_count_witness :
  exists report,
    extract_bbox_metadata sample_open "doc.pdf" 0 (0, 0, 612, 792)
    = Some report
    /\ RegionReport.text_line_count report
       = length (nodup Z.eq_dec
                   (map (fun w => round_half_even (Word.top w)) scenario_sample))
    /\ (RegionReport.text_line_count report <= length scenario_sample)%nat
    /\ (RegionReport.text report = [] <-> scenario_sample = []).
Proof.
  apply (report_text_line_count sample_open "doc.pdf" 0 (0, 0, 612, 792)
           [sample_page] sample_page (Cropped.mk scenario_sample [] [] []));
    reflexivity.
Defined.

(** ** Boxes that are equal in value *)

Lemma bbox_overlap_bbox_eq (a a' b : BBox) :
  bbox_eq a a' -> bbox_overlap a b = bbox_overlap a' b.
Proof.
  destruct a as [[[x0 t] x1] bt], a' as [[[x0' t'] x1'] bt'],
           b as [[[bx0 btop] bx1] bb].
  unfold bbox_eq. intros (E0 & Et & E1 & Eb).
  apply eq_true_iff_eq. rewrite !bbox_overlap_iff.
  rewrite E0, Et, E1, Eb. reflexivity.
Qed.

Lemma images_loop_ext (bbox bbox' : BBox) (imgs : list Img.t) :
  (forall b, bbox_overlap bbox b = bbox_overlap bbox' b) ->
  forall i, images_loop bbox i imgs [] = images_loop bbox' i imgs [].
Proof.
  intros Hext. induction imgs as [|img imgs IH]; intros i; [reflexivity|].
  now rewrite !images_loop_cons, Hext, IH.
Qed.

Lemma clamp_bbox_to_page_swap (x0 top x1 bottom : Q) (page : Page.t) :
  bbox_eq (clamp_bbox_to_page (x1, bottom, x0, top) page)
          (clamp_bbox_to_page (x0, top, x1, bottom) page).
Proof.
  rewrite !clamp_bbox_to_page_unfold. cbv zeta. unfold bbox_eq.
  generalize (clamp1 x0 (Page.width page)) (clamp1 x1 (Page.width page))
             (clamp1 top (Page.height page)) (clamp1 bottom (Page.height page)).
  intros a b c d. repeat split; split_cmp; lra.
Qed.

(** X17.  The image extraction finds the same images, with the same ids and
    fields, whether the caller gives the box as (x0, top, x1, bottom) or with
    its two corners exchanged. *)
Theorem extract_bbox_image_metadata_corner_order
    opener path pn (x0 top x1 bottom : Q) :
  option_map (fun part => (ImagePart.images part, ImagePart.image_count part))
    (extract_bbox_image_metadata opener path pn (x1, bottom, x0, top))
  = option_map (fun part => (ImagePart.images part, ImagePart.image_count part))
      (extract_bbox_image_metadata opener path pn (x0, top, x1, bottom)).
Proof.
  unfold extract_bbox_image_metadata.
  destruct (opener path) as [pdf|]; [|reflexivity].
  destruct (py_getitem pdf pn) as [page|]; [|reflexivity].
  simpl.
  rewrite (images_loop_ext (clamp_bbox_to_page (x1, bottom, x0, top) page)
             (clamp_bbox_to_page (x0, top, x1, bottom) page));
    [reflexivity|].
  intros b. apply bbox_overlap_bbox_eq, clamp_bbox_to_page_swap.
Qed.

(** ** The message of the text extraction *)

(** X18.  With a document, a page and a crop, the text extraction returns
    the request's page number and the normalized box, and it carries the
    message "No text found inside bbox" exactly when the crop has no word;
    otherwise it has no message and at least one line. *)
Theorem extract_bbox_text_metadata_message opener path pn bbox pdf page cropped :
  opener path = Some pdf ->
  py_getitem pdf pn = Some page ->
  Page.crop page (clamp_bbox_to_page bbox page) = Some cropped ->
  exists part,
    extract_bbox_text_metadata opener path pn bbox = Some part
    /\ TextPart.page_number part = pn
    /\ TextPart.bbox part = clamp_bbox_to_page bbox page
    /\ (Cropped.extract_words cropped = []
        -> TextPart.message part = Some "No text found inside bbox"%string
           /\ TextPart.lines part = [])
    /\ (Cropped.extract_words cropped <> []
        -> TextPart.message part = None
           /\ lines_df (Cropped.extract_words cropped)
              = Some (TextPart.lines part)
           /\ TextPart.lines part <> []).
Proof.
  intros Ho Hp Hc. unfold extract_bbox_text_metadata. rewrite Ho, Hp, Hc.
  destruct (Cropped.extract_words cropped) as [|w ws].
  - eexists. split; [reflexivity|]. simpl.
    split; [reflexivity|]. split; [reflexivity|].
    split; [now split | intros N; now contradiction N].
  - destruct (lines_df_returns (w :: ws)) as (ls & E & Hlen & _).
    rewrite E. eexists. split; [reflexivity|]. simpl.
    split; [reflexivity|]. split; [reflexivity|].
    split; [discriminate|]. intros _.
    split; [reflexivity|]. split; [reflexivity|].
    intros ->. simpl in Hlen.
    destruct (line_groups_own (w :: ws) w (or_introl eq_refl)) as (g & Hg & _).
    destruct (line_groups (w :: ws)); [destruct Hg | discriminate Hlen].
Qed.

Lemma extract_bbox_text_metadata_message_witness :
  exists part,
    extract_bbox_text_metadata blank_open "blank.pdf" 0 (0, 0, 10, 10)
    = Some part
    /\ TextPart.page_number part = 0%Z
    /\ TextPart.bbox part
       = clamp_bbox_to_page (0, 0, 10, 10) (blank_page 612 792)
    /\ (Cropped.extract_words (Cropped.mk [] [] [] []) = []
        -> TextPart.message part = Some "No text found inside bbox"%string
           /\ TextPart.lines part = [])
    /\ (Cropped.extract_words (Cropped.mk [] [] [] []) <> []
        -> TextPart.message part = None
           /\ lines_df (Cropped.extract_words (Cropped.mk [] [] [] []))
              = Some (TextPart.lines part)
           /\ TextPart.lines part <> []).
Proof.
  apply (extract_bbox_text_metadata_message blank_open "blank.pdf" 0
           (0, 0, 10, 10) [blank_page 612 792] (blank_page 612 792)
           (Cropped.mk [] [] [] [])); reflexivity.
Defined.

(** ** Where the bands of the line key begin and end *)

Lemma Qfloor_unique (q : Q) (k : Z) :
  inject_Z k <= q < inject_Z (k + 1) -> Qfloor q = k.
Proof.
  intros [Hlo Hhi].
  pose proof (Qfloor_le q) as Flo. pose proof (Qlt_floor q) as Fhi.
  assert (H1 : inject_Z k < inject_Z (Qfloor q + 1)) by lra.
  assert (H2 : inject_Z (Qfloor q) < inject_Z (k + 1)) by lra.
  rewrite <- Zlt_Qlt in H1, H2. lia.
Qed.

Lemma round_half_even_half (k : Z) :
  round_half_even (inject_Z k + (1 # 2)) = if Z.even k then k else (k + 1)%Z.
Proof.
  unfold round_half_even. cbv zeta.
  assert (Ef : Qfloor (inject_Z k + (1 # 2)) = k).
  { apply Qfloor_unique. rewrite inject_Z_plus.
    change (inject_Z 1) with 1. generalize (inject_Z k). intros; lra. }
  rewrite Ef.
  assert (Ec : Qcompare (inject_Z k + (1 # 2) - inject_Z k) (1 # 2) = Eq).
  { apply Qeq_alt. generalize (inject_Z k). intros; lra. }
  now rewrite Ec.
Qed.

(** X19.  The band of a line key [k]: a word whose [top] is less than half a
    unit away from [k] gets the key [k], and a word whose [top] is exactly
    half-way between [k] and [k + 1] gets whichever of the two is even. *)
Theorem line_id_band (words : list Word.t) (r : Row.t) (k : Z) :
  In r (wdf words) ->
  (inject_Z k - (1 # 2) < Word.top (Row.word r) < inject_Z k + (1 # 2)
   -> Row.line_id r = k)
  /\ (Word.top (Row.word r) == inject_Z k + (1 # 2)
      -> Row.line_id r = if Z.even k then k else (k + 1)%Z).
Proof.
  intros Hr. apply wdf_In in Hr as [_ ->]. split.
  - intros [Hlo Hhi].
    pose proof (round_half_even_nearest (Word.top (Row.word r))) as Hn.
    unfold nearest_integer in Hn. apply Qabs_Qle_condition in Hn.
    set (q := Word.top (Row.word r)) in *.
    set (m := round_half_even q) in *.
    assert (Hd : -1 < inject_Z m - inject_Z k < 1) by lra.
    unfold Qminus in Hd. rewrite <- inject_Z_opp, <- inject_Z_plus in Hd.
    destruct Hd as [Hd1 Hd2].
    change (-1) with (inject_Z (-1)) in Hd1. change 1 with (inject_Z 1) in Hd2.
    rewrite <- Zlt_Qlt in Hd1, Hd2. lia.
  - intros E. rewrite (round_half_even_Qeq _ _ E). apply round_half_even_half.
Qed.

Lemma line_id_band_witness :
  (inject_Z 101 - (1 # 2) < 100.6 < inject_Z 101 + (1 # 2)
   -> Row.line_id (Row.mk (Word.mk "World" 60 100.6 100 112.6 "Helvetica" 12)
                          101) = 101%Z)
  /\ (100.6 == inject_Z 101 + (1 # 2)
      -> Row.line_id (Row.mk (Word.mk "World" 60 100.6 100 112.6 "Helvetica" 12)
                             101)
         = if Z.even 101 then 101%Z else (101 + 1)%Z).
Proof.
  apply (line_id_band scenario_sample
           (Row.mk (Word.mk "World" 60 100.6 100 112.6 "Helvetica" 12) 101) 101).
  simpl. right. left. reflexivity.
Defined.

(** Tops of 100.5 and 101.5 get the keys 100 and 102; 101 is the key of
    neither. *)
Example round_half_even_halves :
  map round_half_even [100.5; 101.5; 102.5; -0.5] = [100; 102; 102; 0]%Z.
Proof. reflexivity. Qed.
